(** * Budgetizer: the categorisation and ledger-merge core of [categorize.py]

    A shallow embedding of the pure core of the transaction categoriser
    ([categorize_transaction], [extract_keyword_from_description],
    [guess_category_with_ai], [interactive_categorize], the labelling loop of
    [process_files] and the combine-and-dedupe step of [main]) together with
    the properties the specification states about them.

    Conventions of the embedding.
    - A Python [str] is a [string] of 8-bit characters.  The text methods
      ([upper], [strip], [split], [isdigit], the regular-expression classes
      [\s] and [\d]) are embedded on the ASCII range, where Python defines
      them by the tables reproduced below; characters above 127 are carried
      through unchanged.
    - [None] / [NaN] / [NaT] cells are [None] of an [option].
    - [input()] reads from an explicit list of lines; running out of lines is
      Python's [EOFError].  The reply of the remote model is an explicit
      argument.
    - [print] calls that carry no information used by a claim are omitted;
      the ones that mark control points are kept as events of a log. *)

From Stdlib Require Import ZArith String Ascii.
From stdpp Require Import gmap strings list sorting.

(** ** Python string primitives *)

Module Py.

(** [str.isspace] on one character, which is also the class [\s] of [re]
    for [str] patterns: TAB, LF, VT, FF, CR, the four separators
    0x1c-0x1f and the space. *)
Definition isspace (c : ascii) : bool :=
  let n := nat_of_ascii c in
  ((9 <=? n) && (n <=? 13)) || ((28 <=? n) && (n <=? 32)).

(** The class [\d], and [str.isdigit] on one character. *)
Definition isdigit_char (c : ascii) : bool :=
  let n := nat_of_ascii c in (48 <=? n) && (n <=? 57).

Definition islower_char (c : ascii) : bool :=
  let n := nat_of_ascii c in (97 <=? n) && (n <=? 122).

Definition isupper_char (c : ascii) : bool :=
  let n := nat_of_ascii c in (65 <=? n) && (n <=? 90).

Definition upper_char (c : ascii) : ascii :=
  if islower_char c then ascii_of_nat (nat_of_ascii c - 32) else c.

Definition lower_char (c : ascii) : ascii :=
  if isupper_char c then ascii_of_nat (nat_of_ascii c + 32) else c.

(** [s.upper()] and [s.lower()]. *)
Fixpoint upper (s : string) : string :=
  match s with
  | EmptyString => EmptyString
  | String c s' => String (upper_char c) (upper s')
  end.

Fixpoint lower (s : string) : string :=
  match s with
  | EmptyString => EmptyString
  | String c s' => String (lower_char c) (lower s')
  end.

(** [s.lstrip()], [s.rstrip()] and [s.strip()] with no argument. *)
Fixpoint lstrip (s : string) : string :=
  match s with
  | EmptyString => EmptyString
  | String c s' => if isspace c then lstrip s' else s
  end.

Fixpoint rstrip (s : string) : string :=
  match s with
  | EmptyString => EmptyString
  | String c s' =>
      match rstrip s' with
      | EmptyString => if isspace c then EmptyString else String c EmptyString
      | r => String c r
      end
  end.

Definition strip (s : string) : string := rstrip (lstrip s).

(** [s.startswith(p)]. *)
Fixpoint startswith (s p : string) {struct p} : bool :=
  match p, s with
  | EmptyString, _ => true
  | String _ _, EmptyString => false
  | String a p', String b s' => Ascii.eqb a b && startswith s' p'
  end.

(** [s.endswith(suffix)]: [s] is the suffix, or its tail ends with it. *)
Fixpoint endswith (s suffix : string) : bool :=
  String.eqb s suffix ||
  match s with
  | EmptyString => false
  | String _ s' => endswith s' suffix
  end.

(** [sub in s]: [sub] starts at some position of [s]. *)
Fixpoint contains (s sub : string) : bool :=
  startswith s sub ||
  match s with
  | EmptyString => false
  | String _ s' => contains s' sub
  end.

(** The slices [s[n:]], [s[:n]] and [s[:-1]]. *)
Fixpoint slice_from (n : nat) (s : string) : string :=
  match n, s with
  | O, _ => s
  | S _, EmptyString => EmptyString
  | S n', String _ s' => slice_from n' s'
  end.

Fixpoint slice_to (n : nat) (s : string) : string :=
  match n, s with
  | O, _ => EmptyString
  | S _, EmptyString => EmptyString
  | S n', String c s' => String c (slice_to n' s')
  end.

Fixpoint drop_last (s : string) : string :=
  match s with
  | EmptyString => EmptyString
  | String c s' =>
      match s' with
      | EmptyString => EmptyString
      | String _ _ => String c (drop_last s')
      end
  end.

(** [s.split()] with no argument: the maximal runs of non-space
    characters, in order. *)
Fixpoint split (s : string) : list string :=
  match s with
  | EmptyString => []
  | String c s' =>
      if isspace c then split s'
      else
        match s' with
        | EmptyString => [String c EmptyString]
        | String c' _ =>
            if isspace c' then String c EmptyString :: split s'
            else
              match split s' with
              | t :: ts => String c t :: ts
              | [] => [String c EmptyString]
              end
        end
  end.

(** [any(ch.isdigit() for ch in s)] and [s.isdigit()]. *)
Fixpoint any_digit (s : string) : bool :=
  match s with
  | EmptyString => false
  | String c s' => isdigit_char c || any_digit s'
  end.

Fixpoint all_digits (s : string) : bool :=
  match s with
  | EmptyString => true
  | String c s' => isdigit_char c && all_digits s'
  end.

Definition isdigit (s : string) : bool :=
  match s with
  | EmptyString => false
  | String _ _ => all_digits s
  end.

(** [sep.join(l)]. *)
Definition join (sep : string) (l : list string) : string := String.concat sep l.

(** [int(s)] on a stripped string: an optional sign, then decimal digits
    that single underscores may separate; [None] is [ValueError]. *)
Definition digit_value (c : ascii) : Z := Z.of_nat (nat_of_ascii c - 48).

Fixpoint int_digits (acc : Z) (after_digit : bool) (s : string) : option Z :=
  match s with
  | EmptyString => if after_digit then Some acc else None
  | String c s' =>
      if isdigit_char c then int_digits (10 * acc + digit_value c) true s'
      else if Ascii.eqb c "_" && after_digit then
        match s' with
        | String c' _ => if isdigit_char c' then int_digits acc false s' else None
        | EmptyString => None
        end
      else None
  end.

Definition int (s : string) : option Z :=
  match s with
  | String "+" s' => int_digits 0 false s'
  | String "-" s' => Z.opp <$> int_digits 0 false s'
  | _ => int_digits 0 false s
  end.

End Py.

(** ** The two regular expressions of the program *)

Module Re.

(** The class [[\s\-_/]] of the wildcard pattern. *)
Definition boundary (c : ascii) : bool :=
  Py.isspace c || Ascii.eqb c "-" || Ascii.eqb c "_" || Ascii.eqb c "/".

(** Attempts of [(^|[cls])base] that take the second alternative: a
    character of the class at some position, then [base] right after it. *)
Fixpoint search_after (cls : ascii -> bool) (base s : string) : bool :=
  match s with
  | EmptyString => false
  | String c s' => (cls c && Py.startswith s' base) || search_after cls base s'
  end.

(** [re.search(r'(^|[\s\-_/])' + re.escape(base), s)] as a truth value:
    [^] only holds at position 0 (no MULTILINE flag), and [re.escape] makes
    [base] a literal. *)
Definition search_word_start (base s : string) : bool :=
  Py.startswith s base || search_after boundary base s.

(** Length of the run of digits [s] starts with. *)
Fixpoint digit_run (s : string) : nat :=
  match s with
  | EmptyString => 0
  | String c s' => if Py.isdigit_char c then S (digit_run s') else 0
  end.

(** [\d{2}/\d{2}] at the start of [s]. *)
Definition date_like (s : string) : bool :=
  match s with
  | String a (String b (String c (String d (String e _)))) =>
      Py.isdigit_char a && Py.isdigit_char b && Ascii.eqb c "/" &&
      Py.isdigit_char d && Py.isdigit_char e
  | _ => false
  end.

(** Length of the match of [\d{6,}|\d{2}/\d{2}] at the start of [s], 0 for
    no match: the first alternative is greedy and is tried first. *)
Definition match_len (s : string) : nat :=
  let r := digit_run s in
  if 6 <=? r then r else if date_like s then 5 else 0.

(** [re.sub(r'\d{6,}|\d{2}/\d{2}', '', s)]: leftmost matches, not
    overlapping.  [skip] counts the characters of the current match still to
    be dropped. *)
Fixpoint sub_go (skip : nat) (s : string) : string :=
  match s with
  | EmptyString => EmptyString
  | String c s' =>
      match skip with
      | S k => sub_go k s'
      | O =>
          match match_len s with
          | S k => sub_go k s'
          | O => String c (sub_go 0 s')
          end
      end
  end.

Definition sub_ids_and_dates (s : string) : string := sub_go 0 s.

End Re.

(** ** Rule store and classifier *)

(** A row of [categories_df]. *)
Record Rule : Type := { Keyword : string; Category : string }.

Definition Uncategorized : string := "Uncategorized".

(** The starter rules [load_categories] writes when there is no
    categories file. *)
Definition starter_rules : list Rule :=
  [ {| Keyword := "PAYROLL"; Category := "Income" |};
    {| Keyword := "DEPOSIT"; Category := "Income" |};
    {| Keyword := "INTERAC E-TRANSFER"; Category := "Transfer" |};
    {| Keyword := "WITHDRAWAL"; Category := "Cash Withdrawal" |};
    {| Keyword := "BILL PAYMENT"; Category := "Housing & Utilities" |};
    {| Keyword := "ENBRIDGE"; Category := "Utilities" |};
    {| Keyword := "WATER"; Category := "Utilities" |};
    {| Keyword := "PAYPAL"; Category := "Shopping" |};
    {| Keyword := "UBER"; Category := "Transportation" |};
    {| Keyword := "ACT*VILLED"; Category := "Utilities" |};
    {| Keyword := "CITY OF OTTAWA PARKING"; Category := "Transportation" |};
    {| Keyword := "IKEA"; Category := "Shopping" |};
    {| Keyword := "PRINCESS AUTO"; Category := "Shopping" |};
    {| Keyword := "CANADA COMPUTERS"; Category := "Electronics" |};
    {| Keyword := "STARBUCKS"; Category := "Food & Dining" |};
    {| Keyword := "EQUATOR COFFEE"; Category := "Food & Dining" |};
    {| Keyword := "LCBO"; Category := "Entertainment" |} ].

(** [load_categories()]: the rows of the categories file with their
    keywords in upper case, or the starter rules when there is no file. *)
Definition load_categories (file : option (list Rule)) : list Rule :=
  match file with
  | Some rows =>
      (fun row => {| Keyword := Py.upper (Keyword row); Category := Category row |}) <$> rows
  | None => starter_rules
  end.

(** The test one row of the store makes in the loop of
    [categorize_transaction]. *)
Definition rule_matches (desc_upper : string) (row : Rule) : bool :=
  let keyword := Py.strip (Keyword row) in
  if Py.endswith keyword "*" then
    let base_keyword := Py.drop_last keyword in
    Re.search_word_start base_keyword desc_upper
  else
    Py.contains desc_upper (Py.upper keyword).

(** The loop [for _, row in categories_df.iterrows()]. *)
Fixpoint categorize_rows (desc_upper : string) (rows : list Rule) : string :=
  match rows with
  | [] => Uncategorized
  | row :: rest =>
      let keyword := Py.strip (Keyword row) in
      if Py.endswith keyword "*" then
        let base_keyword := Py.drop_last keyword in
        if Re.search_word_start base_keyword desc_upper then Category row
        else categorize_rows desc_upper rest
      else
        if Py.contains desc_upper (Py.upper keyword) then Category row
        else categorize_rows desc_upper rest
  end.

(** [categorize_transaction(description, categories_df)]; [None] is a
    description for which [pd.isna] holds. *)
Definition categorize_transaction
    (description : option string) (categories_df : list Rule) : string :=
  match description with
  | None => Uncategorized
  | Some d => categorize_rows (Py.strip (Py.upper d)) categories_df
  end.

(** ** Keyword extractor *)

Definition prefixes_to_remove : list string :=
  [ "POS PURCHASE - "; "INTERAC PURCHASE - "; "VISA DEBIT PURCHASE - ";
    "E-TRANSFER "; "BILL PAYMENT - "; "PREAUTHORIZED DEBIT - " ].

Definition common_brands : list string :=
  [ "NETFLIX"; "SPOTIFY"; "AMAZON"; "UBER"; "AIRBNB"; "APPLE";
    "STARBUCKS"; "TIM"; "COSTCO"; "WALMART"; "GOOGLE"; "MICROSOFT";
    "PAYPAL"; "EBAY"; "FACEBOOK"; "ADOBE"; "DROPBOX" ].

(** One turn of [for prefix in prefixes_to_remove]. *)
Definition remove_prefix (desc_upper prefix : string) : string :=
  if Py.startswith desc_upper prefix
  then Py.slice_from (String.length prefix) desc_upper
  else desc_upper.

(** [desc_upper] after the prefix loop. *)
Definition strip_prefixes (description : string) : string :=
  fold_left remove_prefix prefixes_to_remove (Py.upper description).

(** [parts]: the whitespace tokens of the cleaned description. *)
Definition parts_of (description : string) : list string :=
  Py.split (Re.sub_ids_and_dates (strip_prefixes description)).

(** [keyword_parts]: of the first three tokens, those longer than two
    characters that are not all digits. *)
Definition keyword_parts_of (parts : list string) : list string :=
  List.filter (fun part => (2 <? String.length part) && negb (Py.isdigit part))
              (firstn 3 parts).

(** [any(c in keyword for c in ['*', '#', '@'])]. *)
Definition has_marker (keyword : string) : bool :=
  existsb (fun c => Py.contains keyword c) ["*"; "#"; "@"].

(** The loop [for brand in common_brands]: the first brand of the list
    that [first_word] starts with. *)
Definition brand_of (first_word : string) : option string :=
  List.find (fun brand => Py.startswith first_word brand) common_brands.

(** [any(char.isdigit() for char in parts[-1])]. *)
Definition last_has_digit (parts : list string) : bool :=
  Py.any_digit (List.last parts EmptyString).

Definition extract_keyword_from_description (description : string) : string :=
  let desc_upper := strip_prefixes description in
  let desc_clean := Re.sub_ids_and_dates desc_upper in
  let parts := Py.split desc_clean in
  match parts with
  | first_word :: _ =>
      match brand_of first_word with
      | Some brand => brand +:+ "*"
      | None =>
          let keyword_parts := keyword_parts_of parts in
          match keyword_parts with
          | kp0 :: _ =>
              let keyword := Py.join " " (firstn 2 keyword_parts) in
              if (2 <? length parts) && last_has_digit parts then
                if negb (has_marker keyword) then kp0 +:+ "*" else keyword
              else keyword
          | [] => Py.strip (Py.slice_to 20 desc_upper)
          end
      end
  | [] => Py.strip (Py.slice_to 20 desc_upper)
  end.

(** ** The AI suggestion and the interactive prompt *)

(** [get_available_categories()]: the distinct categories of the rules on
    disk together with a fixed extended set, sorted. *)
Definition extended_categories : list string :=
  [ "Income"; "Food & Dining"; "Shopping"; "Transportation";
    "Utilities"; "Entertainment"; "Healthcare"; "Insurance";
    "Housing & Utilities"; "Cash Withdrawal"; "Transfer";
    "Education"; "Personal Care"; "Gifts & Donations"; "Fees";
    "Electronics"; "Home Improvement"; "Travel"; "Subscriptions" ].

Definition get_available_categories (file : option (list Rule)) : list string :=
  merge_sort String.le
    (remove_dups ((Category <$> load_categories file) ++ extended_categories)).

(** What the call to the remote model came to. *)
Inductive OracleReply : Type :=
  | NoApiKey                                      (* no ANTHROPIC_API_KEY *)
  | RequestRaised                                 (* any exception in the [try] block *)
  | Response (status_code : Z) (text : string).   (* the HTTP status and the text of the answer *)

(** [guess_category_with_ai]: [categories] is the value of
    [get_available_categories()], [reply] what the request came to. *)
Definition guess_category_with_ai
    (categories : list string) (reply : OracleReply) : option string :=
  match reply with
  | NoApiKey => None
  | RequestRaised => None
  | Response status_code text =>
      if (status_code =? 200)%Z then
        let category := Py.strip text in
        if bool_decide (category ∈ categories) then Some category else None
      else None
  end.

(** Control points of a labelling session, in the order they are reached. *)
Inductive Event : Type :=
  | Visit (description : string)      (* [process_files] calls [interactive_categorize] *)
  | Menu (description : string)       (* the four options are printed, a choice is read *)
  | ManualList                        (* "Available categories:" and the numbered list *)
  | AskNumber                         (* [input("Enter category number ...")] *)
  | AskNewName                        (* [input("Enter new category name: ")] *)
  | AskOracle (description : string)  (* [guess_category_with_ai(description)] *)
  | AskConfirm (suggested : string)   (* [input("Accept this suggestion? (Y/n): ")] *)
  | RuleAdded (keyword category : string) (self_check : bool)
  | Exiting.                          (* "Exiting categorization and saving progress..." *)

#[global] Instance Event_eq_dec : EqDecision Event.
Proof. solve_decision. Defined.

(** Result of a function that reads from [input()]: [answer] is [None] when
    [input()] raised [EOFError], otherwise the returned value (itself Python's
    [None] or a string); [rest] are the lines not read, [calls] the number of
    calls of [guess_category_with_ai] so far, [log] the events in order. *)
Record Outcome : Type := {
  answer : option (option string);
  rest : list string;
  calls : nat;
  log : list Event
}.

Definition returned (v : option string) (rest : list string) (calls : nat) : Outcome :=
  {| answer := Some v; rest := rest; calls := calls; log := [] |}.

Definition eof (calls : nat) : Outcome :=
  {| answer := None; rest := []; calls := calls; log := [] |}.

Definition emit (evs : list Event) (o : Outcome) : Outcome :=
  {| answer := answer o; rest := rest o; calls := calls o; log := evs ++ log o |}.

Definition EXIT_AND_SAVE : string := "EXIT_AND_SAVE".

(** [categories[cat_idx]] under the guard [0 <= cat_idx < len(categories)]. *)
Definition pick (categories : list string) (cat_idx : Z) : option string :=
  if (0 <=? cat_idx)%Z && (cat_idx <? Z.of_nat (length categories))%Z
  then categories !! Z.to_nat cat_idx else None.

(** The [while True] loop of choice 1: a number, 'new' or 'exit'. *)
Fixpoint select_category
    (categories : list string) (calls : nat) (inputs : list string) : Outcome :=
  match inputs with
  | [] => emit [AskNumber] (eof calls)
  | line :: rest =>
      let cat_num := Py.strip line in
      emit [AskNumber]
        (if String.eqb (Py.lower cat_num) "exit" then returned (Some EXIT_AND_SAVE) rest calls
         else if String.eqb (Py.lower cat_num) "new" then
           match rest with
           | [] => emit [AskNewName] (eof calls)
           | line' :: rest' =>
               let new_category := Py.strip line' in
               emit [AskNewName]
                 (if String.eqb new_category "" then select_category categories calls rest'
                  else returned (Some new_category) rest' calls)
           end
         else
           match Py.int cat_num with
           | None => select_category categories calls rest
           | Some n =>
               match pick categories (n - 1) with
               | Some c => returned (Some c) rest calls
               | None => select_category categories calls rest
               end
           end)
  end.

(** The [while True] loop after a failed suggestion: numbers only. *)
Fixpoint select_category_number
    (categories : list string) (calls : nat) (inputs : list string) : Outcome :=
  match inputs with
  | [] => emit [AskNumber] (eof calls)
  | line :: rest =>
      let cat_num := Py.strip line in
      emit [AskNumber]
        (match Py.int cat_num with
         | None => select_category_number categories calls rest
         | Some n =>
             match pick categories (n - 1) with
             | Some c => returned (Some c) rest calls
             | None => select_category_number categories calls rest
             end
         end)
  end.

(** [interactive_categorize(description, categories_df)].  [oracle k] is
    what the [k]-th call of [guess_category_with_ai] comes to.  The [categories_df]
    argument of the source is only passed along and is left out. *)
Fixpoint interactive_categorize
    (categories : list string) (oracle : nat -> OracleReply)
    (description : string) (calls : nat) (inputs : list string) : Outcome :=
  match inputs with
  | [] => emit [Menu description] (eof calls)
  | line :: rest =>
      let choice := Py.strip line in
      emit [Menu description]
        (if String.eqb choice "1" then
           emit [ManualList] (select_category categories calls rest)
         else if String.eqb choice "2" then
           let manual :=
             emit [ManualList] (select_category_number categories (S calls) rest) in
           emit [AskOracle description]
             (match guess_category_with_ai categories (oracle calls) with
              | Some suggested =>
                  if String.eqb suggested "" then manual
                  else
                    match rest with
                    | [] => emit [AskConfirm suggested] (eof (S calls))
                    | line' :: rest' =>
                        let confirm := Py.lower (Py.strip line') in
                        emit [AskConfirm suggested]
                          (if String.eqb confirm "n"
                           then interactive_categorize categories oracle description (S calls) rest'
                           else returned (Some suggested) rest' (S calls))
                    end
              | None => manual
              end)
         else if String.eqb choice "4" then returned (Some EXIT_AND_SAVE) rest calls
         else returned None rest calls)
  end.

(** ** The labelling loop of [process_files] *)

Record LoopState : Type := {
  categories_df : list Rule;
  uncategorized_descriptions : gset string;
  categorized_descriptions : gmap string string;
  new_rules_added : bool;
  early_exit : bool;
  stdin : list string;
  oracle_calls : nat;
  events : list Event;
  raised : bool      (* [EOFError] left the loop *)
}.

(** The state at [for idx, row in combined_df.iterrows()]. *)
Definition loop_start (rules : list Rule) (inputs : list string) : LoopState :=
  {| categories_df := rules;
     uncategorized_descriptions := ∅;
     categorized_descriptions := ∅;
     new_rules_added := false;
     early_exit := false;
     stdin := inputs;
     oracle_calls := 0;
     events := [];
     raised := false |}.

(** The loop over the [Description] column of [combined_df]. *)
Fixpoint label_rows
    (categories : list string) (oracle : nat -> OracleReply)
    (descriptions : list (option string)) (st : LoopState) : LoopState :=
  match descriptions with
  | [] => st
  | None :: later => label_rows categories oracle later st
  | Some desc :: later =>
      match categorized_descriptions st !! desc with
      | Some _ => label_rows categories oracle later st
      | None =>
          let category := categorize_transaction (Some desc) (categories_df st) in
          if String.eqb category Uncategorized
             && bool_decide (desc ∉ uncategorized_descriptions st) then
            let seen := {[ desc ]} ∪ uncategorized_descriptions st in
            let o := interactive_categorize categories oracle desc
                       (oracle_calls st) (stdin st) in
            let evs := events st ++ Visit desc :: log o in
            match answer o with
            | None =>
                {| categories_df := categories_df st;
                   uncategorized_descriptions := seen;
                   categorized_descriptions := categorized_descriptions st;
                   new_rules_added := new_rules_added st;
                   early_exit := early_exit st;
                   stdin := rest o; oracle_calls := calls o;
                   events := evs; raised := true |}
            | Some new_category =>
                if bool_decide (new_category = Some EXIT_AND_SAVE) then
                  {| categories_df := categories_df st;
                     uncategorized_descriptions := seen;
                     categorized_descriptions := categorized_descriptions st;
                     new_rules_added := new_rules_added st;
                     early_exit := true;
                     stdin := rest o; oracle_calls := calls o;
                     events := evs ++ [Exiting]; raised := false |}
                else
                  match new_category with
                  | Some (String c0 cs as chosen) =>
                      let keyword := extract_keyword_from_description desc in
                      let new_rule := {| Keyword := Py.upper keyword; Category := chosen |} in
                      let rules := categories_df st ++ [new_rule] in
                      let test_match := categorize_transaction (Some desc) rules in
                      label_rows categories oracle later
                        {| categories_df := rules;
                           uncategorized_descriptions := seen;
                           categorized_descriptions :=
                             <[ desc := chosen ]> (categorized_descriptions st);
                           new_rules_added := true;
                           early_exit := early_exit st;
                           stdin := rest o; oracle_calls := calls o;
                           events := evs ++ [RuleAdded keyword chosen (String.eqb test_match chosen)];
                           raised := false |}
                  | _ =>
                      label_rows categories oracle later
                        {| categories_df := categories_df st;
                           uncategorized_descriptions := seen;
                           categorized_descriptions := categorized_descriptions st;
                           new_rules_added := new_rules_added st;
                           early_exit := early_exit st;
                           stdin := rest o; oracle_calls := calls o;
                           events := evs; raised := false |}
                  end
            end
          else label_rows categories oracle later st
      end
  end.

(** The interactive block of [process_files], from the empty session sets
    to the end of the loop: [file] is the categories file on disk,
    [categories_df] the rules in memory, [descriptions] the [Description]
    column of [combined_df]. *)
Definition process_files
    (file : option (list Rule)) (oracle : nat -> OracleReply)
    (categories_df : list Rule) (descriptions : list (option string))
    (inputs : list string) : LoopState :=
  label_rows (get_available_categories file) oracle descriptions
    (loop_start categories_df inputs).

(** The descriptions [interactive_categorize] was called for, in order. *)
Definition visits (evs : list Event) : list string :=
  omap (fun e => match e with Visit d => Some d | _ => None end) evs.

(** ** The master ledger: combine, dedupe, sort *)

Module Ledger.

Inductive SourceKind : Type := Bank | CreditCard.

(** A row of [new_data] / [master_df].  [Date] is the column after
    [pd.to_datetime(..., errors="coerce")]: a timestamp (nanoseconds), or
    [None] for [NaT].  [Amount] only takes part in equality tests here.  The
    [Year] and [Month] columns are functions of [Date] and are left out. *)
Record Row : Type := {
  Date : option Z;
  Description : option string;
  Amount : Z;
  Source : SourceKind;
  Account : string;
  Category : string
}.

#[global] Instance SourceKind_eq_dec : EqDecision SourceKind.
Proof. solve_decision. Defined.

#[global] Instance Row_eq_dec : EqDecision Row.
Proof. solve_decision. Defined.

(** The [subset] of [drop_duplicates]. *)
Definition identity_key (r : Row) : option Z * option string * Z * SourceKind * string :=
  (Date r, Description r, Amount r, Source r, Account r).

(** [df.drop_duplicates(subset=[...], keep='last')]: a row is dropped when a
    later row has the same key; the rows kept stay in order. *)
Fixpoint drop_duplicates_last (rows : list Row) : list Row :=
  match rows with
  | [] => []
  | r :: later =>
      if bool_decide (identity_key r ∈ identity_key <$> later)
      then drop_duplicates_last later
      else r :: drop_duplicates_last later
  end.

(** The sorting algorithm behind [sort_values].  The program passes no
    [kind], so pandas uses its default ['quicksort'], which the pandas and
    numpy documentation describe as not stable: the order it gives to equal
    keys is an implementation matter.  What is known of it is that
    [argsort keys] lists the positions of [keys] so that the keys ascend. *)
Class SortKind : Type := {
  argsort : list Z -> list nat;
  argsort_perm : forall keys, argsort keys ≡ₚ seq 0 (length keys);
  argsort_sorted : forall keys,
    StronglySorted (fun i j => (nth i keys 0 <= nth j keys 0)%Z) (argsort keys)
}.

(** A sort is stable when equal keys keep their relative order. *)
Definition Stable (K : SortKind) : Prop :=
  forall keys v,
    filter (fun i => keys !! i = Some v) (argsort keys)
    = filter (fun i => keys !! i = Some v) (seq 0 (length keys)).

(** [df.take(indexer)]. *)
Definition take_rows (rows : list Row) (indexer : list nat) : list Row :=
  omap (fun i => rows !! i) indexer.

(** [df.sort_values('Date')] (ascending, [na_position='last']), as
    [pandas.core.sorting.nargsort] computes it: the rows with a date are
    permuted by [argsort] of their dates, the [NaT] rows follow in their
    original order. *)
Definition sort_values_Date `{K : SortKind} (rows : list Row) : list Row :=
  let dated := filter (fun r => is_Some (Date r)) rows in
  let undated := filter (fun r => Date r = None) rows in
  take_rows dated (argsort (omap Date rows)) ++ undated.

(** The combine-and-dedupe step of [main]:
    [pd.concat([master_df, new_data]).drop_duplicates(..., keep='last')
       .sort_values('Date').reset_index(drop=True)]. *)
Definition merge `{K : SortKind} (master_df new_data : list Row) : list Row :=
  sort_values_Date (drop_duplicates_last (master_df ++ new_data)).

(** Insertion argsort: position [i] is put in front of the first position
    whose key it may precede. *)
Fixpoint insert_index (precedes : Z -> Z -> bool) (keys : list Z)
    (i : nat) (sorted : list nat) : list nat :=
  match sorted with
  | [] => [i]
  | j :: later =>
      if precedes (nth i keys 0%Z) (nth j keys 0%Z) then i :: j :: later
      else j :: insert_index precedes keys i later
  end.

Definition insertion_argsort (precedes : Z -> Z -> bool) (keys : list Z) : list nat :=
  foldr (insert_index precedes keys) [] (seq 0 (length keys)).

(** A sort that is not stable.  Like an introsort it sorts a short input
    by insertion, which keeps equal keys in order; on a longer input a
    position goes behind the positions of an equal key, so that equal keys
    come out in reverse. *)
Definition unstable_argsort (keys : list Z) : list nat :=
  if length keys <=? 17
  then insertion_argsort Z.leb keys
  else insertion_argsort Z.ltb keys.

(** "Sorted by date ascending", a row without a date counting as later
    than every date. *)
Definition date_le (r1 r2 : Row) : Prop :=
  match Date r1, Date r2 with
  | Some a, Some b => (a <= b)%Z
  | _, None => True
  | None, Some _ => False
  end.

Definition ascending (rows : list Row) : Prop := StronglySorted date_le rows.

End Ledger.

(** ** Vocabulary of the specification *)

(** "[sub] occurs in [s]". *)
Definition occurs (sub s : string) : Prop :=
  exists pre post, s = pre +:+ sub +:+ post.

(** "[sub] occurs in [s], preceded by start-of-string or by a character of
    the class [cls]". *)
Definition occurs_after (cls : ascii -> bool) (sub s : string) : Prop :=
  exists pre post, s = pre +:+ sub +:+ post /\
    (pre = EmptyString \/ exists pre' c, pre = pre' +:+ String c EmptyString /\ cls c = true).

(** The boundary characters as the specification lists them: space,
    hyphen, underscore, slash. *)
Definition listed_boundary (c : ascii) : bool :=
  Ascii.eqb c " " || Ascii.eqb c "-" || Ascii.eqb c "_" || Ascii.eqb c "/".

(** "uppercased, trimmed". *)
Definition normalized (d : string) : string := Py.strip (Py.upper d).

(** No character of [s] is a lower-case letter. *)
Fixpoint no_lower (s : string) : Prop :=
  match s with
  | EmptyString => True
  | String c s' => Py.islower_char c = false /\ no_lower s'
  end.

(** ** Sample data for the worked examples *)

Definition netflix_rule (cat : string) : Rule :=
  {| Keyword := "NETFLIX*"; Category := cat |}.

(** A batch in which two descriptions recur. *)
Definition recurring : list (option string) :=
  [Some "MANDY LAURIER OTTAWA"; Some "ACME 12"; None; Some "MANDY LAURIER OTTAWA";
   Some "ACME 12"; Some "MANDY LAURIER OTTAWA"].

(** A batch whose description holds a long number: the extracted keyword
    STORE ABC does not occur in it. *)
Definition store_with_code : list (option string) :=
  [Some "STORE 12345678 ABC"; Some "STORE 12345678 ABC"; None; Some "STORE 12345678 ABC"].

(** Rows of the chequing account, with and without a date. *)
Definition bank_row (date : Z) (description : string) (amount : Z)
    (category : string) : Ledger.Row :=
  {| Ledger.Date := Some date; Ledger.Description := Some description;
     Ledger.Amount := amount; Ledger.Source := Ledger.Bank;
     Ledger.Account := "Chequing"; Ledger.Category := category |}.

Definition undated_row (description : string) (amount : Z) (category : string) : Ledger.Row :=
  {| Ledger.Date := None; Ledger.Description := Some description;
     Ledger.Amount := amount; Ledger.Source := Ledger.Bank;
     Ledger.Account := "Chequing"; Ledger.Category := category |}.

(** Eighteen purchases of one day, and the last of them with a new category. *)
Definition same_day : list Ledger.Row :=
  (fun n => bank_row 5 "STORE" (- Z.of_nat n) "Shopping") <$> seq 1 18.

Definition recategorized : Ledger.Row := bank_row 5 "STORE" (-18) "Groceries".

(** ** Invariant of the labelling loop *)

(** The prompt was called at most once for a description, and only for
    descriptions recorded in [uncategorized_descriptions]. *)
Definition visited_once (st : LoopState) : Prop :=
  NoDup (visits (events st)) /\
  forall d, d ∈ visits (events st) -> d ∈ uncategorized_descriptions st.

(** Closes a closed decidable goal by evaluation. *)
Ltac by_compute :=
  match goal with |- ?P => apply (bool_decide_eq_true_1 P); vm_compute; reflexivity end.

(** ** Further definitions: helpers of the strings, saving, the session,
    the debugging script, the statement files *)

(** Every character of [s] is white space ([s.isspace()], or [s] is empty). *)
Fixpoint all_space (s : string) : bool :=
  match s with
  | EmptyString => true
  | String c s' => Py.isspace c && all_space s'
  end.

(** [s] does not begin with white space. *)
Definition starts_clean (s : string) : Prop :=
  match s with
  | EmptyString => True
  | String c _ => Py.isspace c = false
  end.

(** No character of [s] is white space. *)
Fixpoint no_space (s : string) : Prop :=
  match s with
  | EmptyString => True
  | String c s' => Py.isspace c = false /\ no_space s'
  end.

(** A token: not empty, no white space. *)
Definition is_token (t : string) : Prop := t <> EmptyString /\ no_space t.

(** [df.drop_duplicates(subset=[column], keep='last')] for rows whose
    value in the column is [key row]: a row is dropped when a later row has
    the same key. *)
Fixpoint drop_duplicates_keep_last {A K : Type} `{EqDecision K}
    (key : A -> K) (rows : list A) : list A :=
  match rows with
  | [] => []
  | row :: later =>
      if bool_decide (key row ∈ key <$> later)
      then drop_duplicates_keep_last key later
      else row :: drop_duplicates_keep_last key later
  end.

(** [save_categories(categories_df)]: the rows written to the categories
    file. *)
Definition save_categories (categories_df : list Rule) : list Rule :=
  drop_duplicates_keep_last Keyword categories_df.

(** What a value returned by the prompt can be: the exit marker, a
    category of the list, or a non-empty line the user typed, trimmed. *)
Definition listed_or_typed (categories inputs : list string) (c : string) : Prop :=
  c = EXIT_AND_SAVE \/ c ∈ categories \/
  (c <> EmptyString /\ exists line, line ∈ inputs /\ c = Py.strip line).

(** The outcome read a prefix of [inputs] and left the rest. *)
Definition reads_prefix (inputs : list string) (o : Outcome) : Prop :=
  exists used, inputs = used ++ rest o.

(** The state after a visit of [desc] that came to [o], for the four ways
    the loop goes on: [input()] raised, the user left, a rule was added
    for the category [chosen], the description was skipped. *)
Definition after_eof (st : LoopState) (desc : string) (o : Outcome) : LoopState :=
  {| categories_df := categories_df st;
     uncategorized_descriptions := {[ desc ]} ∪ uncategorized_descriptions st;
     categorized_descriptions := categorized_descriptions st;
     new_rules_added := new_rules_added st;
     early_exit := early_exit st;
     stdin := rest o; oracle_calls := calls o;
     events := events st ++ Visit desc :: log o; raised := true |}.

Definition after_exit (st : LoopState) (desc : string) (o : Outcome) : LoopState :=
  {| categories_df := categories_df st;
     uncategorized_descriptions := {[ desc ]} ∪ uncategorized_descriptions st;
     categorized_descriptions := categorized_descriptions st;
     new_rules_added := new_rules_added st;
     early_exit := true;
     stdin := rest o; oracle_calls := calls o;
     events := (events st ++ Visit desc :: log o) ++ [Exiting]; raised := false |}.

Definition after_rule (st : LoopState) (desc : string) (o : Outcome)
    (chosen : string) : LoopState :=
  let keyword := extract_keyword_from_description desc in
  let rules := categories_df st ++ [{| Keyword := Py.upper keyword; Category := chosen |}] in
  {| categories_df := rules;
     uncategorized_descriptions := {[ desc ]} ∪ uncategorized_descriptions st;
     categorized_descriptions := <[ desc := chosen ]> (categorized_descriptions st);
     new_rules_added := true;
     early_exit := early_exit st;
     stdin := rest o; oracle_calls := calls o;
     events := (events st ++ Visit desc :: log o)
               ++ [RuleAdded keyword chosen
                     (String.eqb (categorize_transaction (Some desc) rules) chosen)];
     raised := false |}.

Definition after_skip (st : LoopState) (desc : string) (o : Outcome) : LoopState :=
  {| categories_df := categories_df st;
     uncategorized_descriptions := {[ desc ]} ∪ uncategorized_descriptions st;
     categorized_descriptions := categorized_descriptions st;
     new_rules_added := new_rules_added st;
     early_exit := early_exit st;
     stdin := rest o; oracle_calls := calls o;
     events := events st ++ Visit desc :: log o; raised := false |}.

(** [if new_rules_added or early_exit: save_categories(categories_df)]: the
    rows written to the categories file at the end of the block, if it is
    written.  A raised [EOFError] leaves [process_files] before. *)
Definition categories_written (st : LoopState) : option (list Rule) :=
  if raised st then None
  else if new_rules_added st || early_exit st
       then Some (save_categories (categories_df st))
       else None.

(** The events of the prompt itself, as against those of the loop. *)
Definition prompt_event (e : Event) : Prop :=
  match e with
  | Visit _ | RuleAdded _ _ _ | Exiting => False
  | _ => True
  end.

(** The rules a state holds beyond [rules], with what the session did for
    them. *)
Definition session_rules (categories : list string) (rules : list Rule) (inputs : list string)
    (st : LoopState) (added : list Rule) : Prop :=
  categories_df st = rules ++ added /\
  length added <= length (visits (events st)) /\
  (new_rules_added st = true <-> added <> []) /\
  Forall (fun r =>
    (exists d, d ∈ visits (events st) /\
       Keyword r = Py.upper (extract_keyword_from_description d)) /\
    Category r <> EmptyString /\
    listed_or_typed categories inputs (Category r)) added.

(** What the marks of a state say about the session so far. *)
Definition session_marks (rules : list Rule) (descriptions : list (option string))
    (st : LoopState) : Prop :=
  (exists added, categories_df st = rules ++ added) /\
  (forall d, d ∈ visits (events st) ->
     Some d ∈ descriptions /\ categorize_transaction (Some d) rules = Uncategorized) /\
  (forall d, d ∈ uncategorized_descriptions st <-> d ∈ visits (events st)) /\
  (forall d c, categorized_descriptions st !! d = Some c ->
     d ∈ uncategorized_descriptions st /\
     {| Keyword := Py.upper (extract_keyword_from_description d); Category := c |}
       ∈ categories_df st) /\
  (forall kw c, RuleAdded kw c true ∈ events st -> c <> Uncategorized ->
     exists d, categorized_descriptions st !! d = Some c /\
       kw = extract_keyword_from_description d /\
       categorize_transaction (Some d) (categories_df st) = c).

(** Every description with an entry in [categorized_descriptions] is in
    [uncategorized_descriptions]. *)
Definition labelled_were_seen (st : LoopState) : Prop :=
  forall d, is_Some (categorized_descriptions st !! d) -> d ∈ uncategorized_descriptions st.

(** ** The debugging script, [debug_categorization.py] *)

Inductive MatchKind : Type := WildcardMatch | ExactMatch.

(** The loop that fills [matching_rules] for one description: the keyword
    is taken as the row has it, the description is put in upper case and
    is not trimmed.  An entry stands for the line printed for it: keyword,
    category and the kind of match. *)
Fixpoint debug_matching_rules (desc_upper : string) (categories_df : list Rule)
    : list (string * string * MatchKind) :=
  match categories_df with
  | [] => []
  | row :: rest =>
      let keyword_check := Keyword row in
      if Py.endswith keyword_check "*" then
        let base_keyword := Py.drop_last keyword_check in
        if Re.search_word_start base_keyword desc_upper
        then (keyword_check, Category row, WildcardMatch) :: debug_matching_rules desc_upper rest
        else debug_matching_rules desc_upper rest
      else
        if Py.contains desc_upper keyword_check
        then (keyword_check, Category row, ExactMatch) :: debug_matching_rules desc_upper rest
        else debug_matching_rules desc_upper rest
  end.

Definition matching_rules (desc : string) (categories_df : list Rule)
    : list (string * string * MatchKind) :=
  debug_matching_rules (Py.upper desc) categories_df.

(** ** Column mapping of the statement files *)

(** [for variant in variants: if variant in columns: ...; break]: the first
    variant that is a column. *)
Definition first_variant (variants columns : list string) : option string :=
  List.find (fun variant => bool_decide (variant ∈ columns)) variants.

(** The entry the loop over the variants of [key] puts in
    [column_mapping]. *)
Definition map_variant (key : string) (variants columns : list string)
    : list (string * string) :=
  match first_variant variants columns with
  | Some variant => [(key, variant)]
  | None => []
  end.

(** [any(variant in columns for variant in variants)]. *)
Definition any_variant (variants columns : list string) : bool :=
  existsb (fun variant => bool_decide (variant ∈ columns)) variants.

Definition bank_date_variants : list string :=
  ["Transaction Date"; "Date"; "Posted Date"; "Posting Date"; "date"].
Definition bank_desc_variants : list string :=
  ["Description"; "Description 1"; "Merchant Name"; "Transaction Details"; "description"].
Definition bank_amount_variants : list string := ["Amount"; "CAD$"; "amount"].
Definition debit_variants : list string := ["Debit"; "Withdrawal"; "debit"].
Definition credit_variants : list string := ["Credit"; "Deposit"; "credit"].

(** [column_mapping] of [normalize_bank_csv] for a file read with its
    header row (the [else] branch): the entries in the order they are put
    in the dict.  [df_columns] are the labels as read, [columns] the
    labels trimmed. *)
Definition bank_column_mapping (df_columns : list string) : list (string * string) :=
  let columns := Py.strip <$> df_columns in
  map_variant "Date" bank_date_variants columns
  ++ map_variant "Description" bank_desc_variants columns
  ++ (if any_variant bank_amount_variants columns then
        map_variant "Amount" bank_amount_variants columns
      else if any_variant debit_variants columns && any_variant credit_variants columns then
        map_variant "Debit" debit_variants columns
        ++ map_variant "Credit" credit_variants columns
      else []).

Definition credit_date_variants : list string :=
  ["Transaction Date"; "Date"; "Posting Date"; "date"].
Definition credit_desc_variants : list string :=
  ["Description"; "Merchant Name"; "Transaction Details"; "description"].
Definition credit_amount_variants : list string := ["CAD$"; "Amount"; "amount"].
Definition card_variants : list string := ["Card No."; "Card Number"; "Card"; "card"].

(** [column_mapping] of [normalize_credit_csv]. *)
Definition credit_column_mapping (df_columns : list string) : list (string * string) :=
  let columns := Py.strip <$> df_columns in
  map_variant "Date" credit_date_variants columns
  ++ map_variant "Description" credit_desc_variants columns
  ++ map_variant "Amount" credit_amount_variants columns
  ++ map_variant "Card" card_variants columns.






(** A mapping in which no two entries have the same new name or the same
    old name, and no old name is the new name of another entry. *)
Definition tidy (column_mapping : list (string * string)) : Prop :=
  NoDup column_mapping.*1 /\ NoDup column_mapping.*2 /\
  Forall (fun entry => entry.2 = entry.1 \/ (entry.2 ∉ column_mapping.*1)) column_mapping.

(** The entries that the loops over the variant lists of [table] put in
    the dict, one loop after the other. *)
Definition table_mapping (table : list (string * list string)) (columns : list string)
    : list (string * string) :=
  flat_map (fun '(key, variants) => map_variant key variants columns) table.

(** A table in which no two loops have the same key or share a variant,
    and no variant is the key of another loop. *)
Definition tidy_table (table : list (string * list string)) : Prop :=
  NoDup table.*1 /\ NoDup (mjoin table.*2) /\
  Forall (fun '(key, variants) =>
            Forall (fun variant => variant = key \/ (variant ∉ table.*1)) variants) table.

(** ** Card holders *)

Definition card_mapping : gmap string string :=
  {[ "1522" := "Paul"; "7256" := "Sarah" ]}.

(** [s[-4:]]. *)
Definition last_four (s : string) : string :=
  Py.slice_from (String.length s - 4) s.

(** [.str[-4:].map(card_mapping)] and [.fillna("UnknownCard")] for one
    value of the [Card] column, [card] being the value after
    [astype(str)]. *)
Definition account_of_card (card : string) : string :=
  default "UnknownCard" (card_mapping !! last_four card).

(** The apply step of [main]:
    [new_data["Category"] = new_data["Description"].apply(
       lambda d: categorize_transaction(d, updated_categories_df))]. *)
Definition apply_categories (updated_categories_df : list Rule)
    (new_data : list Ledger.Row) : list Ledger.Row :=
  (fun row =>
     {| Ledger.Date := Ledger.Date row;
        Ledger.Description := Ledger.Description row;
        Ledger.Amount := Ledger.Amount row;
        Ledger.Source := Ledger.Source row;
        Ledger.Account := Ledger.Account row;
        Ledger.Category :=
          categorize_transaction (Ledger.Description row) updated_categories_df |})
  <$> new_data.

(** The number [main] prints as "Added ... new transactions":
    [len(combined) - len(master_df)]. *)
Definition added_count `{K : Ledger.SortKind} (master_df new_data : list Ledger.Row) : Z :=
  Z.of_nat (length (Ledger.merge master_df new_data)) - Z.of_nat (length master_df).

(** * Part II: facts and theorems *)

(** * Facts about the string primitives *)

Section StringFacts.

Implicit Types (s p sub pre post : string) (c : ascii).

Lemma app_nil_l_str s : "" +:+ s = s.
Proof. reflexivity. Qed.

Lemma app_cons_str c s1 s2 : String c s1 +:+ s2 = String c (s1 +:+ s2).
Proof. reflexivity. Qed.

Lemma app_nil_r_str s : s +:+ "" = s.
Proof. induction s as [|c s IH]; [done | by rewrite app_cons_str, IH]. Qed.

Lemma app_assoc_str s1 s2 s3 : (s1 +:+ s2) +:+ s3 = s1 +:+ s2 +:+ s3.
Proof. induction s1 as [|c s1 IH]; [done | by rewrite !app_cons_str, IH]. Qed.

Lemma startswith_spec s p : Py.startswith s p = true <-> exists post, s = p +:+ post.
Proof.
  revert s. induction p as [|a p IH]; intros s; simpl.
  - split; [intros _; by exists s | done].
  - destruct s as [|b s].
    + split; [done | intros [post H]; discriminate].
    + rewrite andb_true_iff, Ascii.eqb_eq, IH. split.
      * intros [-> [post ->]]. by exists post.
      * intros [post H]. injection H as -> ->. eauto.
Qed.

Lemma contains_spec s sub : Py.contains s sub = true <-> occurs sub s.
Proof.
  unfold occurs. induction s as [|c s IH].
  - simpl. rewrite orb_false_r, startswith_spec. split.
    + intros [post H]. by exists "", post.
    + intros ([|? pre] & post & H); [by exists post | discriminate].
  - cbn [Py.contains]. rewrite orb_true_iff, startswith_spec, IH. split.
    + intros [[post H] | (pre & post & H)].
      * by exists "", post.
      * exists (String c pre), post. simpl. by rewrite H.
    + intros ([|a pre] & post & H).
      * left. by exists post.
      * right. injection H as -> H. by exists pre, post.
Qed.

Lemma search_after_spec cls base s :
  Re.search_after cls base s = true <->
  exists pre' c post, s = (pre' +:+ String c "") +:+ base +:+ post /\ cls c = true.
Proof.
  induction s as [|a s IH]; simpl.
  - split; [done |]. intros ([|??] & c & post & H & _); discriminate.
  - rewrite orb_true_iff, andb_true_iff, startswith_spec, IH. split.
    + intros [[Hb [post ->]] | (pre' & c & post & -> & Hc)].
      * by exists "", a, post.
      * exists (String a pre'), c, post. done.
    + intros ([|b pre'] & c & post & H & Hc); simpl in H.
      * injection H as -> ->. left. eauto.
      * injection H as -> ->. right. eauto.
Qed.

Lemma occurs_after_dec cls base s :
  Py.startswith s base || Re.search_after cls base s = true <-> occurs_after cls base s.
Proof.
  unfold occurs_after.
  rewrite orb_true_iff, startswith_spec, search_after_spec. split.
  - intros [[post ->] | (pre' & c & post & -> & Hc)].
    + exists "", post. auto.
    + exists (pre' +:+ String c ""), post. split; [done |]. right. eauto.
  - intros (pre & post & -> & [-> | (pre' & c & -> & Hc)]).
    + left. by exists post.
    + right. eauto.
Qed.

(** The regular expression search is an occurrence at a word start. *)
Lemma search_word_start_spec base s :
  Re.search_word_start base s = true <-> occurs_after Re.boundary base s.
Proof. apply occurs_after_dec. Qed.

Lemma endswith_spec s suffix :
  Py.endswith s suffix = true <-> exists pre, s = pre +:+ suffix.
Proof.
  induction s as [|c s IH]; cbn [Py.endswith].
  - rewrite orb_false_r, String.eqb_eq. split.
    + intros <-. by exists "".
    + intros ([|??] & H); simpl in H; [done | discriminate].
  - rewrite orb_true_iff, String.eqb_eq, IH. split.
    + intros [<- | [pre ->]]; [by exists "" | by exists (String c pre)].
    + intros ([|a pre] & H); simpl in H; [by left |].
      injection H as -> ->. right. eauto.
Qed.

Lemma drop_last_app_char pre c : Py.drop_last (pre +:+ String c "") = pre.
Proof.
  induction pre as [|a pre IH]; [done |].
  rewrite app_cons_str. cbn [Py.drop_last]. rewrite IH.
  destruct pre; done.
Qed.

(** ** Upper case *)

Lemma islower_upper_char c : Py.islower_char (Py.upper_char c) = false.
Proof. destruct c as [[] [] [] [] [] [] [] []]; vm_compute; reflexivity. Qed.

Lemma isspace_upper_char c : Py.isspace (Py.upper_char c) = Py.isspace c.
Proof. destruct c as [[] [] [] [] [] [] [] []]; vm_compute; reflexivity. Qed.

Lemma no_lower_upper s : no_lower (Py.upper s).
Proof. induction s; simpl; auto using islower_upper_char. Qed.

Lemma no_lower_app s1 s2 : no_lower (s1 +:+ s2) <-> no_lower s1 /\ no_lower s2.
Proof.
  induction s1 as [|c s1 IH]; [rewrite app_nil_l_str; simpl; tauto |].
  rewrite app_cons_str. simpl. tauto.
Qed.

Lemma upper_no_lower s : no_lower s -> Py.upper s = s.
Proof.
  induction s as [|c s IH]; simpl; [done |]. intros [Hc Hs].
  rewrite IH by done. unfold Py.upper_char. by rewrite Hc.
Qed.

(** ** Strip *)

Lemma lstrip_suffix s : exists ws, s = ws +:+ Py.lstrip s.
Proof.
  induction s as [|c s [ws IH]]; simpl; [by exists "" |].
  destruct (Py.isspace c); [| by exists ""].
  exists (String c ws). by rewrite app_cons_str, <- IH.
Qed.

Lemma rstrip_prefix s : exists ws, s = Py.rstrip s +:+ ws.
Proof.
  induction s as [|c s [ws IH]]; simpl; [by exists "" |].
  destruct (Py.rstrip s) as [|a r] eqn:E.
  - destruct (Py.isspace c).
    + exists (String c s). done.
    + exists ws. rewrite app_cons_str, app_nil_l_str. by rewrite IH at 1.
  - exists ws. rewrite app_cons_str. by rewrite IH at 1.
Qed.

Lemma strip_occurs s : occurs (Py.strip s) s.
Proof.
  unfold Py.strip, occurs.
  destruct (lstrip_suffix s) as [ws1 H1], (rstrip_prefix (Py.lstrip s)) as [ws2 H2].
  exists ws1, ws2. by rewrite <- H2.
Qed.

Lemma occurs_trans s1 s2 s3 : occurs s1 s2 -> occurs s2 s3 -> occurs s1 s3.
Proof.
  intros (a & b & ->) (c & d & ->). exists (c +:+ a), (b +:+ d).
  by rewrite !app_assoc_str.
Qed.

Lemma occurs_no_lower sub s : occurs sub s -> no_lower s -> no_lower sub.
Proof. intros (a & b & ->). rewrite !no_lower_app. tauto. Qed.

Lemma no_lower_normalized d : no_lower (normalized d).
Proof. eapply occurs_no_lower; [apply strip_occurs | apply no_lower_upper]. Qed.

End StringFacts.

(** * The classifier *)

Section Classifier.

Implicit Types (store earlier later : list Rule) (r : Rule) (d kw base cat : string).

Lemma categorize_rows_cons desc_upper r later :
  categorize_rows desc_upper (r :: later) =
  if rule_matches desc_upper r then Category r else categorize_rows desc_upper later.
Proof.
  unfold rule_matches. cbn [categorize_rows].
  destruct (Py.endswith _ _); reflexivity.
Qed.

Lemma categorize_rows_skip desc_upper earlier later :
  Forall (fun r => rule_matches desc_upper r = false) earlier ->
  categorize_rows desc_upper (earlier ++ later) = categorize_rows desc_upper later.
Proof.
  induction 1 as [|r earlier Hr _ IH]; [done |].
  rewrite <- app_comm_cons, categorize_rows_cons, Hr. exact IH.
Qed.

Lemma categorize_rows_none desc_upper store :
  Forall (fun r => rule_matches desc_upper r = false) store ->
  categorize_rows desc_upper store = Uncategorized.
Proof.
  intros H. rewrite <- (app_nil_r store). by rewrite categorize_rows_skip.
Qed.

(** The store splits at its first matching rule, if it has one. *)
Lemma first_match_split desc_upper store :
  Forall (fun r => rule_matches desc_upper r = false) store \/
  exists earlier r later,
    store = earlier ++ r :: later /\
    Forall (fun r => rule_matches desc_upper r = false) earlier /\
    rule_matches desc_upper r = true.
Proof.
  induction store as [|r store IH]; [by left |].
  destruct (rule_matches desc_upper r) eqn:Hr.
  - right. exists [], r, store. auto.
  - destruct IH as [IH | (earlier & r' & later & -> & He & Hr')].
    + left. by constructor.
    + right. exists (r :: earlier), r', later. auto.
Qed.

Lemma wildcard_rule_matches desc_upper kw base cat :
  Py.strip kw = base +:+ "*" ->
  rule_matches desc_upper {| Keyword := kw; Category := cat |}
  = Re.search_word_start base desc_upper.
Proof.
  intros Hkw. unfold rule_matches. cbn [Keyword]. rewrite Hkw.
  assert (Py.endswith (base +:+ "*") "*" = true) as ->
    by (apply endswith_spec; eauto).
  by rewrite drop_last_app_char.
Qed.

Lemma substring_rule_matches d kw cat :
  Py.endswith (Py.strip kw) "*" = false ->
  occurs kw (normalized d) ->
  rule_matches (normalized d) {| Keyword := kw; Category := cat |} = true.
Proof.
  intros Hkw Hocc. unfold rule_matches. cbn [Keyword]. rewrite Hkw.
  assert (occurs (Py.strip kw) (normalized d)) as Hs
    by (eapply occurs_trans; [apply strip_occurs | done]).
  rewrite upper_no_lower.
  - by apply contains_spec.
  - eapply occurs_no_lower; [done | apply no_lower_normalized].
Qed.

End Classifier.


(** C1 (as amended).  A rule whose keyword, stripped, is [base*] matches a
    description exactly when [base] occurs in the uppercased, trimmed
    description at the start or right after a character of the class
    [[\s\-_/]] -- any white space, hyphen, underscore or slash.  When no
    earlier rule matches, the classifier then returns the rule's category,
    and otherwise goes on with the later rules; for a one-rule store whose
    category is not the default this is an equivalence.  The rule NETFLIX*
    matches NETFLIX.COM-5678 and NETFLIX CANADA and not ANTINETFLIXSHOP. *)
Theorem wildcard_rule_word_start :
  (forall (earlier later : list Rule) (kw base cat d : string),
     Py.strip kw = base +:+ "*" ->
     Forall (fun r => rule_matches (normalized d) r = false) earlier ->
     let store := earlier ++ {| Keyword := kw; Category := cat |} :: later in
     (occurs_after Re.boundary base (normalized d) ->
        categorize_transaction (Some d) store = cat) /\
     (~ occurs_after Re.boundary base (normalized d) ->
        categorize_transaction (Some d) store = categorize_transaction (Some d) later)) /\
  (forall (kw base cat d : string),
     Py.strip kw = base +:+ "*" -> cat <> Uncategorized ->
     categorize_transaction (Some d) [{| Keyword := kw; Category := cat |}] = cat
     <-> occurs_after Re.boundary base (normalized d)) /\
  (forall c, Re.boundary c = true <->
     Py.isspace c = true \/ c = "-"%char \/ c = "_"%char \/ c = "/"%char) /\
  (forall cat, categorize_transaction (Some "NETFLIX.COM-5678") [netflix_rule cat] = cat) /\
  (forall cat, categorize_transaction (Some "NETFLIX CANADA") [netflix_rule cat] = cat) /\
  (forall cat, categorize_transaction (Some "ANTINETFLIXSHOP") [netflix_rule cat] = Uncategorized).
Proof.
  assert (forall kw base cat d later, Py.strip kw = base +:+ "*" ->
            categorize_rows (normalized d) ({| Keyword := kw; Category := cat |} :: later)
            = if Re.search_word_start base (normalized d) then cat
              else categorize_rows (normalized d) later) as Hstep.
  { intros kw base cat d later Hkw.
    by rewrite categorize_rows_cons, (wildcard_rule_matches _ _ base). }
  split; [| split; [| split]].
  - intros earlier later kw base cat d Hkw Hearlier store. subst store.
    unfold categorize_transaction. fold (normalized d).
    rewrite categorize_rows_skip, (Hstep _ base) by done.
    split; intros H.
    + apply search_word_start_spec in H. by rewrite H.
    + destruct (Re.search_word_start base (normalized d)) eqn:E; [| done].
      by apply search_word_start_spec in E.
  - intros kw base cat d Hkw Hcat.
    unfold categorize_transaction. fold (normalized d).
    rewrite (Hstep _ base) by done. rewrite <- search_word_start_spec.
    destruct (Re.search_word_start base (normalized d)); cbn [categorize_rows].
    + done.
    + split; [intros H; by destruct Hcat | done].
  - intros c. unfold Re.boundary.
    rewrite !orb_true_iff, !Ascii.eqb_eq. tauto.
  - repeat split; intros cat; reflexivity.
Qed.

Lemma wildcard_rule_word_start_witness :
  categorize_transaction (Some "pos uber/netflix.com 12")
    [ {| Keyword := "PAYPAL"; Category := "Shopping" |};
      {| Keyword := " NETFLIX* "; Category := "Subscriptions" |};
      {| Keyword := "UBER"; Category := "Transportation" |} ] = "Subscriptions".
Proof.
  refine (proj1 (proj1 wildcard_rule_word_start
            [ {| Keyword := "PAYPAL"; Category := "Shopping" |} ]
            [ {| Keyword := "UBER"; Category := "Transportation" |} ]
            " NETFLIX* " "NETFLIX" "Subscriptions" "pos uber/netflix.com 12" _ _) _).
  - reflexivity.
  - repeat constructor.
  - apply search_word_start_spec. vm_compute. reflexivity.
Defined.

(** C1 as stated fails: the class of the pattern is [[\s\-_/]], and [\s]
    holds of more than the space.  After a TAB the rule NETFLIX* matches,
    although NETFLIX is then neither at the start nor after a space, hyphen,
    underscore or slash. *)
Lemma wildcard_after_tab_counterexample :
  categorize_transaction (Some ("ACME" +:+ String "009" "NETFLIX"))
    [{| Keyword := "NETFLIX*"; Category := "Subscriptions" |}] = "Subscriptions" /\
  ~ occurs_after listed_boundary "NETFLIX"
      (normalized ("ACME" +:+ String "009" "NETFLIX")).
Proof.
  split; [reflexivity |].
  rewrite <- occurs_after_dec. vm_compute. discriminate.
Qed.

(** C2.  A rule that is not a wildcard rule and whose keyword occurs in the
    uppercased, trimmed description matches it.  The classifier returns the
    category of the first rule of the store that matches, which stands at
    or before that rule; when no earlier rule matches it is that rule's
    category.  Nothing but the position in the store enters. *)
Theorem substring_rule_first_match_wins
    (store : list Rule) (i : nat) (kw cat d : string) :
  store !! i = Some {| Keyword := kw; Category := cat |} ->
  Py.endswith (Py.strip kw) "*" = false ->
  occurs kw (normalized d) ->
  (exists j r,
      j <= i /\ store !! j = Some r /\
      rule_matches (normalized d) r = true /\
      (forall k r', k < j -> store !! k = Some r' -> rule_matches (normalized d) r' = false) /\
      categorize_transaction (Some d) store = Category r) /\
  ((forall k r', k < i -> store !! k = Some r' -> rule_matches (normalized d) r' = false) ->
   categorize_transaction (Some d) store = cat).
Proof.
  intros Hi Hkw Hocc.
  pose proof (substring_rule_matches d kw cat Hkw Hocc) as Hm.
  destruct (first_match_split (normalized d) store)
    as [Hnone | (earlier & r & later & -> & Hearlier & Hr)].
  { rewrite Forall_lookup in Hnone. specialize (Hnone _ _ Hi). congruence. }
  assert (categorize_transaction (Some d) (earlier ++ r :: later) = Category r) as Hres.
  { unfold categorize_transaction. fold (normalized d).
    by rewrite categorize_rows_skip, categorize_rows_cons, Hr. }
  assert (forall k r', k < length earlier -> (earlier ++ r :: later) !! k = Some r' ->
            rule_matches (normalized d) r' = false) as Hbefore.
  { intros k r' Hk Hl. rewrite lookup_app_l in Hl by done.
    rewrite Forall_lookup in Hearlier. eauto. }
  assert ((earlier ++ r :: later) !! length earlier = Some r) as Hj
    by (by rewrite list_lookup_middle).
  assert (length earlier <= i) as Hle.
  { destruct (decide (length earlier <= i)) as [|Hn]; [done |].
    rewrite (Hbefore i _ ltac:(lia) Hi) in Hm. discriminate. }
  split.
  - exists (length earlier), r. auto.
  - intros Hnone.
    destruct (decide (length earlier = i)) as [<- | Hne].
    + rewrite Hj in Hi. injection Hi as ->. exact Hres.
    + rewrite (Hnone (length earlier) r ltac:(lia) Hj) in Hr. discriminate.
Qed.

Lemma substring_rule_first_match_wins_witness :
  categorize_transaction (Some " interac e-transfer to costco wholesale ")
    [ {| Keyword := "NETFLIX*"; Category := "Subscriptions" |};
      {| Keyword := "COSTCO"; Category := "Groceries" |};
      {| Keyword := "COSTCO WHOLESALE"; Category := "Shopping" |} ] = "Groceries".
Proof.
  refine (proj2 (substring_rule_first_match_wins
            [ {| Keyword := "NETFLIX*"; Category := "Subscriptions" |};
              {| Keyword := "COSTCO"; Category := "Groceries" |};
              {| Keyword := "COSTCO WHOLESALE"; Category := "Shopping" |} ]
            1 "COSTCO" "Groceries" " interac e-transfer to costco wholesale " _ _ _) _).
  - reflexivity.
  - reflexivity.
  - apply contains_spec. vm_compute. reflexivity.
  - intros [|k] r' Hk Hl; [| lia]. injection Hl as <-. reflexivity.
Defined.

(** C7.  A missing description is classified "Uncategorized" whatever the
    store, and so is a description that no rule of the store matches.  The
    classifier is a total function: there is no input on which it fails. *)
Theorem no_match_is_uncategorized :
  Uncategorized = "Uncategorized" /\
  (forall store : list Rule, categorize_transaction None store = Uncategorized) /\
  (forall (store : list Rule) (d : string),
     Forall (fun r => rule_matches (normalized d) r = false) store ->
     categorize_transaction (Some d) store = Uncategorized).
Proof.
  split; [reflexivity |]. split; [reflexivity |].
  intros store d H. unfold categorize_transaction. fold (normalized d).
  by apply categorize_rows_none.
Qed.

Lemma no_match_is_uncategorized_witness :
  categorize_transaction (Some "Mandy Laurier Ottawa")
    [ {| Keyword := "NETFLIX*"; Category := "Subscriptions" |};
      {| Keyword := "AURI*"; Category := "Other" |};
      {| Keyword := "COSTCO"; Category := "Groceries" |} ] = "Uncategorized".
Proof.
  apply (proj2 (proj2 no_match_is_uncategorized)).
  repeat constructor.
Defined.

(** * The keyword extractor *)

(** No brand of the list is the start of another, so a word starts with at
    most one of them and the order of the list does not matter. *)
Lemma brand_of_unique first_word brand :
  brand ∈ common_brands ->
  Py.startswith first_word brand = true ->
  brand_of first_word = Some brand.
Proof.
  intros Hin Hstart. apply startswith_spec in Hstart as [post ->].
  unfold common_brands in Hin.
  repeat (apply elem_of_cons in Hin as [-> | Hin]; [reflexivity |]).
  by apply elem_of_nil in Hin.
Qed.

(** C6.  When the first token of the cleaned description starts with a
    brand of the list, the extracted keyword is that brand followed by a
    star; NETFLIX.COM-5678 gives NETFLIX*. *)
Theorem known_brand_gets_wildcard :
  (forall (d first_word brand : string) (later : list string),
     parts_of d = first_word :: later ->
     brand ∈ common_brands ->
     Py.startswith first_word brand = true ->
     extract_keyword_from_description d = brand +:+ "*") /\
  extract_keyword_from_description "NETFLIX.COM-5678" = "NETFLIX*".
Proof.
  split; [| reflexivity].
  intros d first_word brand later Hparts Hin Hstart.
  unfold extract_keyword_from_description. fold (parts_of d).
  by rewrite Hparts, (brand_of_unique _ brand).
Qed.

Lemma known_brand_gets_wildcard_witness :
  extract_keyword_from_description "pos purchase - 12/04 AmazonPrime*2K4 0012345678 ca"
  = "AMAZON*".
Proof.
  apply (proj1 known_brand_gets_wildcard _ "AMAZONPRIME*2K4" "AMAZON" ["CA"]).
  - reflexivity.
  - by_compute.
  - reflexivity.
Defined.

(** C5 (as amended).  On the path that builds a candidate -- the first
    token starts with no known brand and some token survives the filter --
    when the cleaned description has more than two tokens, its last token
    holds a digit and the candidate holds none of the characters star, hash
    and at, the keyword is the first surviving token followed by a star.
    TIM HORTONS #1234 gives the wildcard keyword TIM*. *)
Theorem store_code_collapses_to_wildcard :
  (forall (d first_word kp0 : string) (later kps : list string),
     parts_of d = first_word :: later ->
     brand_of first_word = None ->
     keyword_parts_of (parts_of d) = kp0 :: kps ->
     2 < length (parts_of d) ->
     last_has_digit (parts_of d) = true ->
     has_marker (Py.join " " (firstn 2 (kp0 :: kps))) = false ->
     extract_keyword_from_description d = kp0 +:+ "*") /\
  extract_keyword_from_description "TIM HORTONS #1234" = "TIM*".
Proof.
  split; [| reflexivity].
  intros d first_word kp0 later kps Hparts Hbrand Hkp Hlen Hdigit Hmark.
  unfold extract_keyword_from_description. fold (parts_of d).
  rewrite Hparts in *. rewrite Hbrand, Hkp, Hdigit, Hmark.
  apply Nat.ltb_lt in Hlen. by rewrite Hlen.
Qed.

Lemma store_code_collapses_to_wildcard_witness :
  extract_keyword_from_description "Interac purchase - Mandy Laurier Ottawa 0042"
  = "MANDY*".
Proof.
  apply (proj1 store_code_collapses_to_wildcard _ "MANDY" "MANDY"
           ["LAURIER"; "OTTAWA"; "0042"] ["LAURIER"; "OTTAWA"]).
  - reflexivity.
  - reflexivity.
  - reflexivity.
  - vm_compute. lia.
  - reflexivity.
  - reflexivity.
Defined.

(** C5 as stated fails: the collapse is guarded by [len(parts) > 2].  A
    description of two tokens whose last token holds a digit keeps its
    two-word candidate. *)
Lemma two_token_description_counterexample :
  parts_of "SHELL C01234" = ["SHELL"; "C01234"] /\
  brand_of "SHELL" = None /\
  keyword_parts_of (parts_of "SHELL C01234") = ["SHELL"; "C01234"] /\
  last_has_digit (parts_of "SHELL C01234") = true /\
  has_marker (Py.join " " (firstn 2 ["SHELL"; "C01234"])) = false /\
  extract_keyword_from_description "SHELL C01234" = "SHELL C01234" /\
  extract_keyword_from_description "SHELL C01234" <> "SHELL" +:+ "*".
Proof. repeat split; try reflexivity. vm_compute. discriminate. Qed.

(** * The interactive prompt *)

Section Prompt.

Variable categories : list string.
Variable oracle : nat -> OracleReply.

Lemma visits_app evs1 evs2 : visits (evs1 ++ evs2) = visits evs1 ++ visits evs2.
Proof. apply omap_app. Qed.

Lemma log_emit evs o : log (emit evs o) = evs ++ log o.
Proof. reflexivity. Qed.

Lemma answer_emit evs o : answer (emit evs o) = answer o.
Proof. reflexivity. Qed.

Lemma select_category_no_visit calls inputs :
  visits (log (select_category categories calls inputs)) = [].
Proof.
  remember (length inputs) as n eqn:Hn. revert inputs Hn.
  induction (lt_wf n) as [n _ IH]. intros inputs ->.
  destruct inputs as [|line rest]; [reflexivity |].
  cbn [select_category]. rewrite log_emit, visits_app.
  destruct (String.eqb _ "exit"); [reflexivity |].
  destruct (String.eqb _ "new").
  - destruct rest as [|line' rest']; [reflexivity |].
    rewrite log_emit, visits_app.
    destruct (String.eqb _ ""); [| reflexivity].
    cbn. eapply IH; [| reflexivity]. cbn. lia.
  - destruct (Py.int _) as [n|]; [destruct (pick _ _) |]; try reflexivity;
      cbn; (eapply IH; [| reflexivity]); cbn; lia.
Qed.

Lemma select_category_number_no_visit calls inputs :
  visits (log (select_category_number categories calls inputs)) = [].
Proof.
  induction inputs as [|line rest IH]; [reflexivity |].
  cbn [select_category_number]. rewrite log_emit, visits_app.
  destruct (Py.int _) as [n|]; [destruct (pick _ _) |]; done.
Qed.

Lemma interactive_categorize_no_visit description calls inputs :
  visits (log (interactive_categorize categories oracle description calls inputs)) = [].
Proof.
  remember (length inputs) as n eqn:Hn. revert inputs calls Hn.
  induction (lt_wf n) as [n _ IH]. intros inputs calls ->.
  destruct inputs as [|line rest]; [reflexivity |].
  cbn [interactive_categorize]. rewrite log_emit, visits_app.
  destruct (String.eqb _ "1").
  { rewrite log_emit, visits_app. cbn. apply select_category_no_visit. }
  destruct (String.eqb _ "2"); [| destruct (String.eqb _ "4"); reflexivity].
  rewrite log_emit, visits_app.
  assert (visits (log (emit [ManualList]
            (select_category_number categories (S calls) rest))) = []) as Hmanual.
  { rewrite log_emit, visits_app. cbn. apply select_category_number_no_visit. }
  destruct (guess_category_with_ai _ _) as [suggested|]; [| by rewrite Hmanual].
  destruct (String.eqb suggested ""); [by rewrite Hmanual |].
  destruct rest as [|line' rest']; [reflexivity |].
  rewrite log_emit, visits_app.
  destruct (String.eqb _ "n"); [| reflexivity].
  cbn. eapply IH; [| reflexivity]. cbn. lia.
Qed.

(** The number-only loop returns a member of the list or runs out of input. *)
Lemma select_category_number_member calls inputs v :
  answer (select_category_number categories calls inputs) = Some v ->
  exists c, v = Some c /\ c ∈ categories.
Proof.
  induction inputs as [|line rest IH]; [discriminate |].
  cbn [select_category_number]. rewrite answer_emit.
  destruct (Py.int _) as [n|]; [| done].
  destruct (pick categories (n - 1)) as [c|] eqn:Hp; [| done].
  intros [= <-]. exists c. split; [done |].
  unfold pick in Hp. destruct (_ && _); [| done].
  by eapply list_elem_of_lookup_2.
Qed.

End Prompt.

(** X1.  A failed request leaves no suggestion, whatever the failure; the prompt
    then lists the categories and reads category numbers until one is in
    range, and what it returns is a category of the list.  Only running out
    of input ends it otherwise. *)
Theorem oracle_failure_falls_back_to_manual :
  (forall categories,
     guess_category_with_ai categories NoApiKey = None /\
     guess_category_with_ai categories RequestRaised = None /\
     (forall status_code text, status_code <> 200%Z ->
        guess_category_with_ai categories (Response status_code text) = None) /\
     (forall text, Py.strip text ∉ categories ->
        guess_category_with_ai categories (Response 200 text) = None)) /\
  (forall categories oracle description calls line rest,
     Py.strip line = "2" ->
     guess_category_with_ai categories (oracle calls) = None ->
     interactive_categorize categories oracle description calls (line :: rest)
     = emit [Menu description; AskOracle description; ManualList]
         (select_category_number categories (S calls) rest)) /\
  (forall categories calls inputs v,
     answer (select_category_number categories calls inputs) = Some v ->
     exists c, v = Some c /\ c ∈ categories).
Proof.
  split; [| split].
  - intros categories. repeat split.
    + intros status_code text Hs. cbn.
      by destruct (Z.eqb_spec status_code 200).
    + intros text Ht. cbn. by rewrite bool_decide_eq_false_2.
  - intros categories oracle description calls line rest Hline Hguess.
    cbn [interactive_categorize]. by rewrite Hline, Hguess.
  - apply select_category_number_member.
Qed.

Lemma oracle_failure_falls_back_to_manual_witness :
  interactive_categorize (get_available_categories None) (fun _ => Response 503 "")
    "ACME STORE" 0 [" 2"; "x"; "99"; "18"]
  = emit [Menu "ACME STORE"; AskOracle "ACME STORE"; ManualList]
      (select_category_number (get_available_categories None) 1 ["x"; "99"; "18"]).
Proof.
  apply (proj1 (proj2 oracle_failure_falls_back_to_manual)).
  - reflexivity.
  - reflexivity.
Defined.



(** * The labelling loop *)

Section Loop.

Variable categories : list string.
Variable oracle : nat -> OracleReply.

Lemma visits_cons_visit d evs : visits (Visit d :: evs) = d :: visits evs.
Proof. reflexivity. Qed.

Lemma visited_once_step st desc o seen evs :
  visited_once st ->
  desc ∉ uncategorized_descriptions st ->
  visits (log o) = [] ->
  visits evs = [] ->
  seen = {[ desc ]} ∪ uncategorized_descriptions st ->
  NoDup (visits ((events st ++ Visit desc :: log o) ++ evs)) /\
  forall d, d ∈ visits ((events st ++ Visit desc :: log o) ++ evs) -> d ∈ seen.
Proof.
  intros [Hnd Hsub] Hfresh Ho Hevs ->.
  rewrite !visits_app, visits_cons_visit, Hevs, Ho, app_nil_r. split.
  - apply NoDup_app. split; [done |]. split.
    + intros d Hd Hd'. apply list_elem_of_singleton in Hd' as ->. auto.
    + apply NoDup_singleton.
  - intros d [Hd | Hd]%elem_of_app.
    + apply elem_of_union_r. auto.
    + apply list_elem_of_singleton in Hd as ->.
      by apply elem_of_union_l, elem_of_singleton.
Qed.

Lemma label_rows_visited_once descriptions st :
  visited_once st ->
  visited_once (label_rows categories oracle descriptions st).
Proof.
  revert st. induction descriptions as [|[desc|] later IH]; intros st Hst;
    cbn [label_rows]; [done | | by apply IH].
  destruct (categorized_descriptions st !! desc); [by apply IH |].
  destruct (String.eqb _ _); cbn [andb]; [| by apply IH].
  case_bool_decide as Hfresh; [| by apply IH].
  set (o := interactive_categorize categories oracle desc (oracle_calls st) (stdin st)).
  pose proof (interactive_categorize_no_visit categories oracle desc
                (oracle_calls st) (stdin st)) as Ho. fold o in Ho.
  pose proof (fun evs Hevs => visited_once_step st desc o _ evs Hst Hfresh Ho Hevs eq_refl)
    as Hstep.
  destruct (answer o) as [new_category|].
  - case_bool_decide.
    + apply (Hstep [Exiting]). reflexivity.
    + destruct new_category as [[|c0 cs]|]; apply IH.
      * specialize (Hstep [] eq_refl). by rewrite app_nil_r in Hstep.
      * eapply (Hstep [RuleAdded _ _ _]). reflexivity.
      * specialize (Hstep [] eq_refl). by rewrite app_nil_r in Hstep.
  - specialize (Hstep [] eq_refl). by rewrite app_nil_r in Hstep.
Qed.

End Loop.

(** C9.  In one run of the labelling loop [process_files] calls
    [interactive_categorize] at most once for a description string, however
    often the string recurs in the batch and whatever the visit came to:
    the list of visited descriptions has no repetition.  (The call
    [interactive_categorize] makes to itself after a declined suggestion is
    part of the one visit.)  Three runs are spelled out, where the first
    visit ends in a skip, in a new rule that matches, and in a new rule
    that fails its self-check; none of them reads past its input. *)
Theorem each_description_visited_once :
  (forall (file : option (list Rule)) (oracle : nat -> OracleReply)
          (categories_df : list Rule) (descriptions : list (option string))
          (inputs : list string),
     NoDup (visits (events
       (process_files file oracle categories_df descriptions inputs)))) /\
  (let st := process_files None (fun _ => NoApiKey) starter_rules recurring ["3"; "3"] in
     visits (events st) = ["MANDY LAURIER OTTAWA"; "ACME 12"] /\
     raised st = false /\ categories_df st = starter_rules) /\
  (let st := process_files None (fun _ => NoApiKey) starter_rules recurring
               ["1"; "3"; "3"] in
     visits (events st) = ["MANDY LAURIER OTTAWA"; "ACME 12"] /\
     raised st = false /\
     RuleAdded "MANDY LAURIER" "Electronics" true ∈ events st) /\
  (let st := process_files None (fun _ => NoApiKey) starter_rules store_with_code
               ["1"; "3"] in
     visits (events st) = ["STORE 12345678 ABC"] /\
     raised st = false /\
     RuleAdded "STORE ABC" "Electronics" false ∈ events st).
Proof.
  split.
  { intros. apply label_rows_visited_once. split; [constructor |].
    intros d Hd. by apply elem_of_nil in Hd. }
  repeat split; try (vm_compute; reflexivity); by_compute.
Qed.

(** * The declined suggestion *)

(** C8, at the failing input.  The model suggests a category of the list,
    the user answers n, then 3: the four-option menu is printed again, and
    the call returns [None] -- the description is skipped.  The category
    list is never shown and no category number is asked for.  With 2 and an
    empty line instead of 3 the same suggestion is accepted. *)
Theorem declined_suggestion_reopens_menu :
  (let o := interactive_categorize (get_available_categories None)
              (fun _ => Response 200 "Travel") "ACME STORE" 0 ["2"; "n"; "3"] in
     answer o = Some None /\
     log o = [Menu "ACME STORE"; AskOracle "ACME STORE"; AskConfirm "Travel";
              Menu "ACME STORE"] /\
     (ManualList ∉ log o) /\ (AskNumber ∉ log o)) /\
  (let o := interactive_categorize (get_available_categories None)
              (fun _ => Response 200 "Travel") "ACME STORE" 0 ["2"; "n"; "2"; ""] in
     answer o = Some (Some "Travel") /\ (ManualList ∉ log o) /\ (AskNumber ∉ log o)).
Proof.
  repeat split; try (vm_compute; reflexivity); by_compute.
Qed.

(** * The ledger merge *)

Module LedgerFacts.
Import Ledger.

Implicit Types (rows l master new : list Row) (r : Row) (p idxs : list nat).

Local Abbreviation key_not_in l := (fun r => identity_key r ∉ identity_key <$> l).
Local Abbreviation with_key k := (fun r => identity_key r = k).
Local Abbreviation on_date v := (fun r => Date r = v).
Local Abbreviation has_date := (fun r => is_Some (Date r)).
Local Abbreviation no_date := (fun r => Date r = None).

(** ** Deduplication *)

Lemma drop_duplicates_last_cons r l :
  drop_duplicates_last (r :: l) =
  if decide (identity_key r ∈ identity_key <$> l)
  then drop_duplicates_last l else r :: drop_duplicates_last l.
Proof. cbn [drop_duplicates_last]. by case_bool_decide; case_decide. Qed.

Lemma drop_duplicates_last_subseteq l : drop_duplicates_last l ⊆ l.
Proof.
  induction l as [|r l IH]; [done |].
  rewrite drop_duplicates_last_cons. intros x Hx. case_decide.
  - right. by apply IH.
  - apply elem_of_cons in Hx as [-> | Hx]; [left | right; by apply IH].
Qed.

Lemma drop_duplicates_last_keys l k :
  k ∈ identity_key <$> drop_duplicates_last l <-> k ∈ identity_key <$> l.
Proof.
  induction l as [|r l IH]; [done |].
  rewrite drop_duplicates_last_cons. case_decide as Hr.
  - rewrite IH, fmap_cons, elem_of_cons. split; [auto | by intros [-> | ?]].
  - by rewrite !fmap_cons, !elem_of_cons, IH.
Qed.

Lemma drop_duplicates_last_NoDup l : NoDup (identity_key <$> drop_duplicates_last l).
Proof.
  induction l as [|r l IH]; [constructor |].
  rewrite drop_duplicates_last_cons. case_decide as Hr; [done |].
  rewrite fmap_cons. constructor; [| done].
  by rewrite drop_duplicates_last_keys.
Qed.

Lemma drop_duplicates_last_id l :
  NoDup (identity_key <$> l) -> drop_duplicates_last l = l.
Proof.
  induction l as [|r l IH]; [done |].
  rewrite fmap_cons, NoDup_cons. intros [Hr Hl].
  rewrite drop_duplicates_last_cons, decide_False by done. by rewrite IH.
Qed.

Lemma drop_duplicates_last_app l1 l2 :
  drop_duplicates_last (l1 ++ l2) =
  filter (key_not_in l2) (drop_duplicates_last l1) ++ drop_duplicates_last l2.
Proof.
  induction l1 as [|r l1 IH]; [done |].
  rewrite <- app_comm_cons, !drop_duplicates_last_cons, fmap_app.
  destruct (decide (identity_key r ∈ identity_key <$> l1)) as [H1 | H1].
  - by rewrite decide_True by (apply elem_of_app; auto).
  - destruct (decide (identity_key r ∈ identity_key <$> l2)) as [H2 | H2].
    + rewrite decide_True by (apply elem_of_app; auto).
      by rewrite filter_cons_False by (intros ?; done).
    + rewrite decide_False by (rewrite elem_of_app; tauto).
      by rewrite filter_cons_True, IH by done.
Qed.

Lemma filter_none {A} (P : A -> Prop) `{!forall x, Decision (P x)} (l : list A) :
  (forall x, x ∈ l -> ~ P x) -> filter P l = [].
Proof.
  induction l as [|x l IH]; [done |]. intros Hnone.
  rewrite filter_cons_False by (apply Hnone; left).
  apply IH. intros y Hy. apply Hnone. by right.
Qed.

(** Of the rows of a key, deduplication keeps the last one. *)
Lemma drop_duplicates_last_filter l k :
  filter (with_key k) (drop_duplicates_last l) = option_list (last (filter (with_key k) l)).
Proof.
  induction l as [|r l IH]; [done |].
  rewrite drop_duplicates_last_cons.
  destruct (decide (identity_key r = k)) as [Hk | Hk].
  - rewrite (filter_cons_True _ r l) by done.
    case_decide as Hr.
    + rewrite IH. apply list_elem_of_fmap in Hr as (r' & Hkey & Hr').
      assert (r' ∈ filter (with_key k) l) as Hin
        by (apply list_elem_of_filter; split; congruence).
      destruct (filter _ l) as [|x xs]; [by apply elem_of_nil in Hin |].
      by rewrite last_cons_cons.
    + rewrite filter_cons_True, IH by done.
      rewrite (filter_none _ l); [done |].
      intros x Hx Hxk. apply Hr. apply list_elem_of_fmap. exists x. split; congruence.
  - rewrite (filter_cons_False _ r l) by done.
    case_decide; [done |]. by rewrite filter_cons_False.
Qed.


(** ** Reordering by an index list *)

Lemma omap_cons {A B} (f : A -> option B) (x : A) (l : list A) :
  omap f (x :: l) = match f x with Some y => y :: omap f l | None => omap f l end.
Proof. reflexivity. Qed.

Lemma take_rows_seq_app pre l :
  take_rows (pre ++ l) (seq (length pre) (length l)) = l.
Proof.
  unfold take_rows. revert pre. induction l as [|r l IH]; intros pre; [done |].
  cbn [length seq]. rewrite omap_cons, list_lookup_middle by done. f_equal.
  specialize (IH (pre ++ [r])).
  by rewrite <- app_assoc, length_app, Nat.add_1_r in IH.
Qed.

Lemma take_rows_seq l : take_rows l (seq 0 (length l)) = l.
Proof. apply (take_rows_seq_app [] l). Qed.

Lemma take_rows_perm l p : p ≡ₚ seq 0 (length l) -> take_rows l p ≡ₚ l.
Proof.
  intros Hp. unfold take_rows. rewrite Hp. fold (take_rows l (seq 0 (length l))).
  by rewrite take_rows_seq.
Qed.

Lemma take_rows_elem_of l p r : r ∈ take_rows l p -> r ∈ l.
Proof.
  unfold take_rows. rewrite list_elem_of_omap. intros (i & _ & Hi).
  by eapply list_elem_of_lookup_2.
Qed.

Lemma take_rows_filter l p (Q : Row -> Prop) (Qi : nat -> Prop)
    `{!forall r, Decision (Q r)} `{!forall i, Decision (Qi i)} :
  (forall i r, l !! i = Some r -> Qi i <-> Q r) ->
  filter Q (take_rows l p) = take_rows l (filter Qi p).
Proof.
  intros HQ. unfold take_rows. induction p as [|i p IH]; [done |].
  rewrite omap_cons. destruct (l !! i) as [r|] eqn:Hi.
  - destruct (decide (Q r)) as [Hr | Hr].
    + rewrite filter_cons_True by done.
      rewrite (filter_cons_True Qi) by (by apply (HQ i r)).
      by rewrite omap_cons, Hi, IH.
    + rewrite filter_cons_False by done.
      by rewrite (filter_cons_False Qi) by (by rewrite (HQ i r)).
  - destruct (decide (Qi i)).
    + rewrite (filter_cons_True Qi) by done. by rewrite omap_cons, Hi.
    + by rewrite (filter_cons_False Qi) by done.
Qed.

Lemma take_rows_sorted l p (R : relation Row) (Ri : relation nat) :
  (forall i j ri rj, Ri i j -> l !! i = Some ri -> l !! j = Some rj -> R ri rj) ->
  StronglySorted Ri p -> StronglySorted R (take_rows l p).
Proof.
  intros HR. unfold take_rows. induction 1 as [|i p Hp IH Hi]; [constructor |].
  rewrite omap_cons. destruct (l !! i) as [ri|] eqn:Hli; [| done].
  constructor; [done |].
  apply Forall_forall. intros rj (j & Hj & Hlj)%list_elem_of_omap.
  rewrite Forall_forall in Hi. eauto.
Qed.

(** ** The sort *)

Lemma dates_of_dated rows :
  omap Date rows = (fun r => default 0%Z (Date r)) <$> filter has_date rows.
Proof.
  induction rows as [|r rows IH]; [done |].
  rewrite omap_cons. destruct (Date r) as [z|] eqn:Hr.
  - rewrite filter_cons_True by (by rewrite Hr). by rewrite fmap_cons, Hr, IH.
  - by rewrite filter_cons_False by (rewrite Hr; by intros [??]).
Qed.

Lemma dated_undated_perm rows : filter has_date rows ++ filter no_date rows ≡ₚ rows.
Proof.
  rewrite <- (filter_app_complement has_date rows) at 3.
  f_equiv. apply reflexive_eq, list_filter_iff.
  intros r. by rewrite eq_None_not_Some.
Qed.

Section WithSort.
Context `{K : SortKind}.

Lemma sort_values_Date_perm rows : sort_values_Date rows ≡ₚ rows.
Proof.
  unfold sort_values_Date. rewrite take_rows_perm; [apply dated_undated_perm |].
  rewrite argsort_perm. by rewrite dates_of_dated, length_fmap.
Qed.

Lemma merge_perm master new :
  merge master new ≡ₚ drop_duplicates_last (master ++ new).
Proof. apply sort_values_Date_perm. Qed.

End WithSort.




(** ** Insertion argsort meets the contract of a sort *)

Section Insertion.

Variable precedes : Z -> Z -> bool.
Hypothesis precedes_le : forall a b, precedes a b = true -> (a <= b)%Z.
Hypothesis not_precedes_ge : forall a b, precedes a b = false -> (b <= a)%Z.
Variable keys : list Z.

Local Abbreviation key_le := (fun i j => (nth i keys 0 <= nth j keys 0)%Z).

Lemma insert_index_perm i p : insert_index precedes keys i p ≡ₚ i :: p.
Proof.
  induction p as [|j p IH]; [done |]. cbn [insert_index].
  destruct (precedes _ _); [done |]. rewrite IH. apply Permutation_swap.
Qed.

Lemma insert_index_sorted i p :
  StronglySorted key_le p -> StronglySorted key_le (insert_index precedes keys i p).
Proof.
  induction 1 as [|j p Hp IH Hj]; cbn [insert_index]; [repeat constructor |].
  destruct (precedes _ _) eqn:E.
  - apply precedes_le in E. constructor; [by constructor |].
    constructor; [done |]. eapply Forall_impl; [exact Hj |].
    intros k Hk. cbn in *. lia.
  - apply not_precedes_ge in E. constructor; [done |].
    rewrite insert_index_perm. by constructor.
Qed.

Lemma insertion_fold_perm idxs : foldr (insert_index precedes keys) [] idxs ≡ₚ idxs.
Proof.
  induction idxs as [|i idxs IH]; [done |]. cbn [foldr].
  by rewrite insert_index_perm, IH.
Qed.

Lemma insertion_fold_sorted idxs :
  StronglySorted key_le (foldr (insert_index precedes keys) [] idxs).
Proof.
  induction idxs as [|i idxs IH]; [constructor |]. by apply insert_index_sorted.
Qed.

End Insertion.

(** The stable sort: a position goes in front of the first position whose
    key is not smaller. *)
Definition stable_kind : SortKind := {|
  argsort := insertion_argsort Z.leb;
  argsort_perm keys := insertion_fold_perm Z.leb keys _;
  argsort_sorted keys :=
    insertion_fold_sorted Z.leb (fun a b => proj1 (Z.leb_le a b))
      (fun a b H => Z.lt_le_incl _ _ (proj1 (Z.leb_gt a b) H)) keys _
|}.

Lemma unstable_argsort_perm keys : unstable_argsort keys ≡ₚ seq 0 (length keys).
Proof.
  unfold unstable_argsort. destruct (_ <=? _); apply insertion_fold_perm.
Qed.

Lemma unstable_argsort_sorted keys :
  StronglySorted (fun i j => (nth i keys 0 <= nth j keys 0)%Z) (unstable_argsort keys).
Proof.
  unfold unstable_argsort. destruct (_ <=? _); apply insertion_fold_sorted.
  - intros a b. apply Z.leb_le.
  - intros a b H. apply Z.leb_gt in H. lia.
  - intros a b H. apply Z.ltb_lt in H. lia.
  - intros a b. apply Z.ltb_ge.
Qed.

(** The sort that is not stable meets the contract as well. *)
Definition unstable_kind : SortKind := {|
  argsort := unstable_argsort;
  argsort_perm := unstable_argsort_perm;
  argsort_sorted := unstable_argsort_sorted
|}.

Lemma stable_kind_Stable : Stable stable_kind.
Proof.
  intros keys v. cbn [argsort stable_kind]. unfold insertion_argsort.
  generalize (seq 0 (length keys)) as idxs.
  assert (forall i p,
    filter (fun i => keys !! i = Some v) (insert_index Z.leb keys i p)
    = filter (fun i => keys !! i = Some v) (i :: p)) as Hins.
  { intros i p. induction p as [|j p IH]; [done |]. cbn [insert_index].
    destruct (Z.leb _ _) eqn:E; [done |]. apply Z.leb_gt in E.
    rewrite (filter_cons _ j), IH, !(filter_cons _ i), (filter_cons _ j).
    destruct (decide (keys !! j = Some v)) as [Hj | Hj];
      destruct (decide (keys !! i = Some v)) as [Hi | Hi]; try done.
    rewrite (nth_lookup_Some _ _ _ _ Hi), (nth_lookup_Some _ _ _ _ Hj) in E. lia. }
  induction idxs as [|i idxs IH]; [done |]. cbn [foldr].
  by rewrite Hins, !(filter_cons _ i), IH.
Qed.

(** ** Ascending dates *)

Lemma date_le_refl r : date_le r r.
Proof. unfold date_le. destruct (Date r); [lia | done]. Qed.

Lemma date_le_antisym r1 r2 : date_le r1 r2 -> date_le r2 r1 -> Date r1 = Date r2.
Proof.
  unfold date_le. destruct (Date r1), (Date r2); try done.
  intros. f_equal. lia.
Qed.

Lemma ascending_app l1 l2 :
  ascending l1 -> ascending l2 ->
  (forall x y, x ∈ l1 -> y ∈ l2 -> date_le x y) ->
  ascending (l1 ++ l2).
Proof.
  unfold ascending. intros H1 H2 H12. induction H1 as [|x l1 Hl1 IH Hx]; [done |].
  rewrite <- app_comm_cons. constructor.
  - apply IH. intros a b Ha. apply H12. by right.
  - apply Forall_app. split; [done |].
    apply Forall_forall. intros y Hy. apply H12; [left | done].
Qed.

Lemma ascending_no_date l : Forall no_date l -> ascending l.
Proof.
  unfold ascending. induction 1 as [|x l Hx Hl IH]; constructor; [done |].
  eapply Forall_impl; [exact Hl |]. intros y Hy. unfold date_le.
  cbn in Hy. rewrite Hy. by destruct (Date x).
Qed.

(** A list in ascending date order is determined by its rows of each date. *)
Lemma ascending_unique l1 l2 :
  ascending l1 -> ascending l2 ->
  (forall v, filter (on_date v) l1 = filter (on_date v) l2) ->
  l1 = l2.
Proof.
  unfold ascending. intros H1. revert l2.
  induction H1 as [|x l1 Hl1 IH Hx]; intros l2 H2 Hgroups.
  - destruct l2 as [|y l2]; [done |].
    specialize (Hgroups (Date y)). by rewrite filter_cons_True in Hgroups.
  - destruct H2 as [|y l2 Hl2 Hy].
    { specialize (Hgroups (Date x)). by rewrite filter_cons_True in Hgroups. }
    assert (Date x = Date y) as Hxy.
    { apply date_le_antisym.
      - assert (y ∈ filter (on_date (Date y)) (x :: l1)) as Hin
          by (rewrite Hgroups, filter_cons_True by done; left).
        apply list_elem_of_filter in Hin as [_ [-> | Hin]%elem_of_cons].
        + apply date_le_refl.
        + rewrite Forall_forall in Hx. auto.
      - assert (x ∈ filter (on_date (Date x)) (y :: l2)) as Hin
          by (rewrite <- Hgroups, filter_cons_True by done; left).
        apply list_elem_of_filter in Hin as [_ [-> | Hin]%elem_of_cons].
        + apply date_le_refl.
        + rewrite Forall_forall in Hy. auto. }
    pose proof (Hgroups (Date x)) as Hhead.
    rewrite filter_cons_True, (filter_cons_True _ y) in Hhead by done.
    injection Hhead as -> Htail. f_equal. apply IH; [done |].
    intros v. destruct (decide (Date y = v)) as [<- | Hv]; [done |].
    specialize (Hgroups v). by rewrite !filter_cons_False in Hgroups.
Qed.

Section SortFacts.
Context `{K : SortKind}.

Lemma dated_lookup rows i r :
  filter has_date rows !! i = Some r ->
  exists z, Date r = Some z /\ nth i (omap Date rows) 0%Z = z /\ omap Date rows !! i = Some z.
Proof.
  intros Hi.
  assert (is_Some (Date r)) as [z Hz].
  { apply list_elem_of_lookup_2, list_elem_of_filter in Hi. tauto. }
  exists z. rewrite dates_of_dated.
  assert (((fun r => default 0%Z (Date r)) <$> filter has_date rows) !! i = Some z) as Hl
    by (by rewrite list_lookup_fmap, Hi; cbn; rewrite Hz).
  split; [done |]. split; [| done]. by apply nth_lookup_Some.
Qed.

Lemma sort_values_Date_split rows :
  exists dated undated,
    sort_values_Date rows = dated ++ undated /\
    Forall has_date dated /\
    StronglySorted date_le dated /\
    undated = filter no_date rows.
Proof.
  exists (take_rows (filter has_date rows) (argsort (omap Date rows))),
         (filter no_date rows).
  split; [done |]. split; [| split; [| done]].
  - apply Forall_forall. intros r Hr%take_rows_elem_of.
    apply list_elem_of_filter in Hr. tauto.
  - eapply take_rows_sorted; [| apply argsort_sorted].
    intros i j ri rj Hij (zi & Hzi & Hni & _)%dated_lookup (zj & Hzj & Hnj & _)%dated_lookup.
    cbn in Hij. unfold date_le. rewrite Hzi, Hzj. lia.
Qed.

Lemma sort_values_Date_ascending rows : ascending (sort_values_Date rows).
Proof.
  destruct (sort_values_Date_split rows) as (dated & undated & -> & Hd & Hs & ->).
  apply ascending_app; [done | |].
  - apply ascending_no_date, Forall_forall. intros r Hr.
    apply list_elem_of_filter in Hr. tauto.
  - intros x y _ Hy. apply list_elem_of_filter in Hy as [Hy _].
    unfold date_le. rewrite Hy. by destruct (Date x).
Qed.

(** A stable sort keeps the rows of each date in the order they had. *)
Lemma sort_values_Date_stable rows v :
  Stable K ->
  filter (on_date v) (sort_values_Date rows) = filter (on_date v) rows.
Proof.
  intros HK. unfold sort_values_Date. rewrite filter_app.
  destruct v as [z|].
  - rewrite (filter_none _ (filter no_date rows)), app_nil_r.
    2:{ intros r Hr%list_elem_of_filter. destruct Hr as [Hr _]. by rewrite Hr. }
    assert (forall p, filter (on_date (Some z)) (take_rows (filter has_date rows) p)
              = take_rows (filter has_date rows)
                  (filter (fun i => omap Date rows !! i = Some z) p)) as Hidx.
    { intros p. apply take_rows_filter.
      intros i r (z' & Hz' & _ & Hl)%dated_lookup. by rewrite Hl, Hz'. }
    rewrite Hidx, HK, <- Hidx.
    replace (length (omap Date rows)) with (length (filter has_date rows))
      by (by rewrite dates_of_dated, length_fmap).
    rewrite take_rows_seq, list_filter_filter_l; [done |].
    intros r Hr. cbn in Hr. by rewrite Hr.
  - rewrite (filter_none _ (take_rows _ _)), app_nil_l.
    2:{ intros r Hr%take_rows_elem_of%list_elem_of_filter.
        destruct Hr as [[z Hz] _]. by rewrite Hz. }
    by rewrite list_filter_filter_l.
Qed.

End SortFacts.



Section MergeFacts.
Context `{K : SortKind}.

Lemma merge_NoDup master new : NoDup (identity_key <$> merge master new).
Proof. rewrite merge_perm. apply drop_duplicates_last_NoDup. Qed.

(** What a second merge of the same batch starts from. *)
Lemma remerge_input master new :
  drop_duplicates_last (merge master new ++ new)
  = filter (key_not_in new) (merge master new) ++ drop_duplicates_last new.
Proof.
  by rewrite drop_duplicates_last_app, (drop_duplicates_last_id (merge _ _))
    by apply merge_NoDup.
Qed.

Lemma filter_batch_keys new :
  filter (key_not_in new) (drop_duplicates_last new) = [].
Proof.
  apply filter_none. intros r Hr Hnot. apply Hnot.
  apply drop_duplicates_last_keys, list_elem_of_fmap. eauto.
Qed.

Lemma filter_not_in_batch master new :
  filter (key_not_in new) (drop_duplicates_last (master ++ new))
  = filter (key_not_in new) (drop_duplicates_last master).
Proof.
  rewrite drop_duplicates_last_app, filter_app, filter_batch_keys, app_nil_r.
  by apply list_filter_filter_l.
Qed.

Lemma remerge_input_perm master new :
  drop_duplicates_last (merge master new ++ new)
  ≡ₚ drop_duplicates_last (master ++ new).
Proof.
  rewrite remerge_input, merge_perm, filter_not_in_batch.
  by rewrite drop_duplicates_last_app.
Qed.

Lemma filter_comm_rows (P Q : Row -> Prop)
    `{!forall r, Decision (P r)} `{!forall r, Decision (Q r)} (l : list Row) :
  filter P (filter Q l) = filter Q (filter P l).
Proof. rewrite !list_filter_filter. apply list_filter_iff. tauto. Qed.

Lemma remerge_input_groups master new v :
  Stable K ->
  filter (on_date v) (drop_duplicates_last (merge master new ++ new))
  = filter (on_date v) (drop_duplicates_last (master ++ new)).
Proof.
  intros HK.
  rewrite remerge_input, filter_app, filter_comm_rows.
  unfold merge at 1. rewrite sort_values_Date_stable by done.
  rewrite <- filter_comm_rows, filter_not_in_batch.
  by rewrite drop_duplicates_last_app, filter_app.
Qed.

End MergeFacts.

(** C3.  The merged ledger holds, of the rows of an identity key in the
    existing rows followed by the new rows, the last one and no other.  So
    when a new row is merged into a ledger, the rows of its key in the
    result are that row alone, with the category it carries, whatever row
    of the key the ledger held. *)
Theorem merge_keeps_last_occurrence (K : SortKind) :
  (forall (master new : list Row) k,
     filter (with_key k) (merge master new)
     = option_list (last (filter (with_key k) (master ++ new)))) /\
  (forall (master : list Row) (rA : Row),
     filter (with_key (identity_key rA)) (merge master [rA]) = [rA]).
Proof.
  assert (forall (master new : list Row) k,
     filter (with_key k) (merge master new)
     = option_list (last (filter (with_key k) (master ++ new)))) as Hlast.
  { intros master new k.
    pose proof (filter_Permutation (with_key k) _ _ (merge_perm master new)) as Hp.
    rewrite drop_duplicates_last_filter in Hp.
    destruct (last _) as [r|]; cbn [option_list] in *.
    - by apply Permutation_singleton_r.
    - by apply Permutation_nil_r. }
  split; [done |]. intros master rA.
  by rewrite Hlast, filter_app, filter_cons_True, filter_nil, last_snoc.
Qed.

Lemma merge_keeps_last_occurrence_witness :
  filter (with_key (identity_key (bank_row 5 "NETFLIX.COM" (-1699) "A")))
    (merge (K := stable_kind)
       [ bank_row 9 "COSTCO" (-4500) "Groceries";
         bank_row 5 "NETFLIX.COM" (-1699) "B" ]
       [ bank_row 5 "NETFLIX.COM" (-1699) "A" ])
  = [ bank_row 5 "NETFLIX.COM" (-1699) "A" ].
Proof. apply (proj2 (merge_keeps_last_occurrence stable_kind)). Defined.

(** C10.  In the merged ledger the rows whose date did not parse come
    after all rows with a date, in the order they had among themselves; the
    sort is a total function and loses no row. *)
Theorem unparsable_dates_sort_last (K : SortKind) (master new : list Row) :
  (exists dated undated,
     merge master new = dated ++ undated /\
     Forall (fun r => is_Some (Date r)) dated /\
     Forall (fun r => Date r = None) undated /\
     undated = filter (fun r => Date r = None) (drop_duplicates_last (master ++ new))) /\
  (forall i j ri rj,
     merge master new !! i = Some ri -> merge master new !! j = Some rj ->
     Date ri = None -> is_Some (Date rj) -> j < i) /\
  merge master new ≡ₚ drop_duplicates_last (master ++ new).
Proof.
  destruct (sort_values_Date_split (drop_duplicates_last (master ++ new)))
    as (dated & undated & Hm & Hd & _ & Hu).
  fold (merge master new) in Hm.
  assert (Forall (fun r => Date r = None) undated) as Hn.
  { subst undated. apply Forall_forall. intros r Hr%list_elem_of_filter. tauto. }
  split; [by exists dated, undated |]. split; [| apply merge_perm].
  intros i j ri rj Hi Hj Hri Hrj. rewrite Hm in Hi, Hj.
  rewrite Forall_forall in Hd. rewrite Forall_forall in Hn.
  destruct (decide (i < length dated)) as [Hlt | Hge].
  - rewrite lookup_app_l in Hi by done.
    apply list_elem_of_lookup_2, Hd in Hi. rewrite Hri in Hi. by destruct Hi.
  - destruct (decide (j < length dated)) as [? | Hjge]; [lia |].
    rewrite lookup_app_r in Hj by lia.
    apply list_elem_of_lookup_2, Hn in Hj. rewrite Hj in Hrj. by destruct Hrj.
Qed.

Lemma unparsable_dates_sort_last_witness :
  merge (K := unstable_kind)
    [ undated_row "CHEQUE 12" (-5000) "Uncategorized";
      bank_row 9 "COSTCO" (-4500) "Groceries" ]
    [ undated_row "ATM" (-2000) "Cash Withdrawal";
      bank_row 5 "NETFLIX.COM" (-1699) "Subscriptions" ]
  ≡ₚ drop_duplicates_last
       ([ undated_row "CHEQUE 12" (-5000) "Uncategorized";
          bank_row 9 "COSTCO" (-4500) "Groceries" ]
        ++ [ undated_row "ATM" (-2000) "Cash Withdrawal";
             bank_row 5 "NETFLIX.COM" (-1699) "Subscriptions" ]).
Proof. apply (proj2 (proj2 (unparsable_dates_sort_last unstable_kind _ _))). Defined.

(** C4 (as amended).  Merging the same batch a second time gives a ledger
    with the same rows as merging it once, again in ascending date order
    with the rows without a date last, those in the same order as before.
    When the sort is stable the two ledgers are equal row for row. *)
Theorem merge_twice_same_rows (K : SortKind) (master new : list Row) :
  merge (merge master new) new ≡ₚ merge master new /\
  ascending (merge master new) /\
  ascending (merge (merge master new) new) /\
  (Stable K -> merge (merge master new) new = merge master new).
Proof.
  split; [| split; [| split]].
  - by rewrite (merge_perm (merge master new)), remerge_input_perm, merge_perm.
  - apply sort_values_Date_ascending.
  - apply sort_values_Date_ascending.
  - intros HK. apply ascending_unique; try apply sort_values_Date_ascending.
    intros v. unfold merge at 1 3.
    by rewrite !sort_values_Date_stable, remerge_input_groups by done.
Qed.

Lemma merge_twice_same_rows_witness :
  merge (K := stable_kind)
    (merge (K := stable_kind)
       [ bank_row 5 "COSTCO" (-4500) "Groceries";
         bank_row 5 "IKEA" (-9900) "Shopping" ]
       [ bank_row 5 "NETFLIX.COM" (-1699) "Subscriptions" ])
    [ bank_row 5 "NETFLIX.COM" (-1699) "Subscriptions" ]
  = merge (K := stable_kind)
      [ bank_row 5 "COSTCO" (-4500) "Groceries";
        bank_row 5 "IKEA" (-9900) "Shopping" ]
      [ bank_row 5 "NETFLIX.COM" (-1699) "Subscriptions" ].
Proof.
  apply (proj2 (proj2 (proj2 (merge_twice_same_rows stable_kind _ _)))).
  apply stable_kind_Stable.
Defined.

(** C4 as stated fails.  The program sorts with the default algorithm,
    which need not keep rows of equal date in order.  With a sort that
    meets the contract and is not stable, eighteen rows of one date come
    out in another order when the batch -- the last row with a new
    category -- is merged a second time. *)
Lemma merge_twice_order_counterexample :
  merge (K := unstable_kind) (merge (K := unstable_kind) same_day [recategorized])
    [recategorized]
  <> merge (K := unstable_kind) same_day [recategorized].
Proof. vm_compute. discriminate. Qed.

End LedgerFacts.

(** * Further properties *)

Section MoreStringFacts.

Implicit Types (s t : string) (c : ascii).

Lemma upper_upper s : Py.upper (Py.upper s) = Py.upper s.
Proof. apply upper_no_lower, no_lower_upper. Qed.

Lemma upper_lower_char c : Py.upper_char (Py.lower_char c) = Py.upper_char c.
Proof. destruct c as [[] [] [] [] [] [] [] []]; vm_compute; reflexivity. Qed.

Lemma upper_lower s : Py.upper (Py.lower s) = Py.upper s.
Proof. induction s as [|c s IH]; [done |]. cbn. by rewrite upper_lower_char, IH. Qed.

Lemma lstrip_upper s : Py.lstrip (Py.upper s) = Py.upper (Py.lstrip s).
Proof.
  induction s as [|c s IH]; [done |]. cbn [Py.upper Py.lstrip].
  rewrite isspace_upper_char. by destruct (Py.isspace c).
Qed.

Lemma rstrip_cons c s :
  Py.rstrip (String c s) =
  match Py.rstrip s with
  | EmptyString => if Py.isspace c then EmptyString else String c EmptyString
  | String a r => String c (String a r)
  end.
Proof. reflexivity. Qed.

Lemma rstrip_upper s : Py.rstrip (Py.upper s) = Py.upper (Py.rstrip s).
Proof.
  induction s as [|c s IH]; [done |]. cbn [Py.upper].
  rewrite !rstrip_cons, IH, isspace_upper_char.
  destruct (Py.rstrip s); [by destruct (Py.isspace c) | done].
Qed.

Lemma strip_upper s : Py.strip (Py.upper s) = Py.upper (Py.strip s).
Proof. unfold Py.strip. by rewrite lstrip_upper, rstrip_upper. Qed.

Lemma lstrip_starts_clean s : starts_clean (Py.lstrip s).
Proof.
  induction s as [|c s IH]; [done |]. cbn [Py.lstrip].
  by destruct (Py.isspace c) eqn:E.
Qed.

Lemma lstrip_clean s : starts_clean s -> Py.lstrip s = s.
Proof. destruct s as [|c s]; [done |]. cbn. by intros ->. Qed.

Lemma rstrip_starts_clean s : starts_clean s -> starts_clean (Py.rstrip s).
Proof.
  destruct s as [|c s]; [done |]. cbn [starts_clean]. intros Hc.
  rewrite rstrip_cons, Hc. by destruct (Py.rstrip s).
Qed.

Lemma rstrip_rstrip s : Py.rstrip (Py.rstrip s) = Py.rstrip s.
Proof.
  induction s as [|c s IH]; [done |]. rewrite rstrip_cons.
  destruct (Py.rstrip s) as [|a r] eqn:E.
  - destruct (Py.isspace c) eqn:Ec; [done |]. cbn. by rewrite Ec.
  - by rewrite rstrip_cons, IH.
Qed.

Lemma strip_strip s : Py.strip (Py.strip s) = Py.strip s.
Proof.
  unfold Py.strip.
  rewrite (lstrip_clean (Py.rstrip _)) by apply rstrip_starts_clean, lstrip_starts_clean.
  apply rstrip_rstrip.
Qed.

Lemma normalized_upper d : normalized (Py.upper d) = normalized d.
Proof. unfold normalized. by rewrite upper_upper. Qed.

Lemma normalized_lower d : normalized (Py.lower d) = normalized d.
Proof. unfold normalized. by rewrite upper_lower. Qed.

Lemma normalized_strip d : normalized (Py.strip d) = normalized d.
Proof. unfold normalized. by rewrite <- strip_upper, strip_strip. Qed.

End MoreStringFacts.

(** * More on the classifier *)

Section MoreClassifier.

Implicit Types (store extra later : list Rule) (r : Rule) (d kw base cat : string).

Lemma categorize_transaction_split d store :
  (Forall (fun r => rule_matches (normalized d) r = false) store /\
   categorize_transaction (Some d) store = Uncategorized) \/
  (exists earlier r later,
     store = earlier ++ r :: later /\
     Forall (fun r => rule_matches (normalized d) r = false) earlier /\
     rule_matches (normalized d) r = true /\
     categorize_transaction (Some d) store = Category r).
Proof.
  destruct (first_match_split (normalized d) store)
    as [Hnone | (earlier & r & later & -> & He & Hr)].
  - left. split; [done |]. by apply categorize_rows_none.
  - right. exists earlier, r, later. repeat split; try done.
    unfold categorize_transaction. fold (normalized d).
    by rewrite categorize_rows_skip, categorize_rows_cons, Hr.
Qed.

Lemma categorize_transaction_app_matched d store extra :
  Exists (fun r => rule_matches (normalized d) r = true) store ->
  categorize_transaction (Some d) (store ++ extra) = categorize_transaction (Some d) store.
Proof.
  intros Hex.
  destruct (categorize_transaction_split d store)
    as [[Hnone _] | (earlier & r & later & -> & He & Hr & Hres)].
  - apply Exists_exists in Hex as (r & Hin & Hr).
    rewrite Forall_forall in Hnone.
    rewrite (Hnone r Hin) in Hr. discriminate.
  - rewrite Hres. unfold categorize_transaction. fold (normalized d).
    by rewrite <- app_assoc, categorize_rows_skip, <- app_comm_cons,
      categorize_rows_cons, Hr.
Qed.

Lemma categorize_transaction_app_unmatched d store extra :
  Forall (fun r => rule_matches (normalized d) r = false) store ->
  categorize_transaction (Some d) (store ++ extra) = categorize_transaction (Some d) extra.
Proof.
  intros H. unfold categorize_transaction. by apply categorize_rows_skip.
Qed.

Lemma eqb_star_upper s : String.eqb (Py.upper s) "*" = String.eqb s "*".
Proof.
  destruct s as [|c [|c' s]]; [done | | ].
  - destruct c as [[] [] [] [] [] [] [] []]; vm_compute; reflexivity.
  - cbn [Py.upper]. apply eq_trans with false.
    + apply String.eqb_neq. discriminate.
    + symmetry. apply String.eqb_neq. discriminate.
Qed.

Lemma endswith_star_upper s : Py.endswith (Py.upper s) "*" = Py.endswith s "*".
Proof.
  induction s as [|c s IH]; [done |].
  change (Py.endswith (Py.upper (String c s)) "*")
    with (String.eqb (Py.upper (String c s)) "*" || Py.endswith (Py.upper s) "*").
  change (Py.endswith (String c s) "*")
    with (String.eqb (String c s) "*" || Py.endswith s "*").
  by rewrite eqb_star_upper, IH.
Qed.

End MoreClassifier.

(** X3.  Rules appended to the store never change the category of a
    description that some rule of the store already matches -- in
    particular of one whose category is not "Uncategorized"; and a
    description left "Uncategorized" by the longer store was so before. *)
Theorem appended_rules_keep_categories (store extra : list Rule) (d : string) :
  (Exists (fun r => rule_matches (normalized d) r = true) store ->
   categorize_transaction (Some d) (store ++ extra) = categorize_transaction (Some d) store) /\
  (categorize_transaction (Some d) store <> Uncategorized ->
   categorize_transaction (Some d) (store ++ extra) = categorize_transaction (Some d) store) /\
  (categorize_transaction (Some d) (store ++ extra) = Uncategorized ->
   categorize_transaction (Some d) store = Uncategorized).
Proof.
  split; [apply categorize_transaction_app_matched |].
  destruct (categorize_transaction_split d store)
    as [[Hnone Hres] | (earlier & r & later & Hs & He & Hr & Hres)].
  - split; [by intros [] | done].
  - assert (Exists (fun r => rule_matches (normalized d) r = true) store) as Hex.
    { subst store. apply Exists_app. right. by left. }
    rewrite (categorize_transaction_app_matched _ _ _ Hex). auto.
Qed.

Lemma appended_rules_keep_categories_witness :
  categorize_transaction (Some "Starbucks #441 Ottawa")
    (starter_rules ++ [ {| Keyword := "OTTAWA"; Category := "Travel" |} ])
  = categorize_transaction (Some "Starbucks #441 Ottawa") starter_rules.
Proof.
  apply (proj1 (proj2 (appended_rules_keep_categories _ _ _))).
  vm_compute. discriminate.
Defined.

(** X4.  The category depends on the description only through its upper
    case, trimmed form: changing the case of its letters or its leading
    and trailing white space changes nothing. *)
Theorem classification_ignores_case_and_margins (store : list Rule) (d : string) :
  categorize_transaction (Some (Py.upper d)) store = categorize_transaction (Some d) store /\
  categorize_transaction (Some (Py.lower d)) store = categorize_transaction (Some d) store /\
  categorize_transaction (Some (Py.strip d)) store = categorize_transaction (Some d) store.
Proof.
  unfold categorize_transaction.
  fold (normalized (Py.upper d)) (normalized (Py.lower d))
       (normalized (Py.strip d)) (normalized d).
  by rewrite normalized_upper, normalized_lower, normalized_strip.
Qed.

(** X5.  Letter case of keywords.  A keyword that is not a wildcard is
    compared in upper case, so two such keywords that differ in case only
    match the same descriptions.  The base of a wildcard keyword is
    compared as written: when it holds a lower-case letter the rule
    matches no description at all.  [load_categories] returns upper-case
    keywords only. *)
Theorem keyword_case :
  (forall s kw kw' cat,
     Py.upper kw = Py.upper kw' ->
     Py.endswith (Py.strip kw) "*" = false ->
     rule_matches s {| Keyword := kw; Category := cat |}
     = rule_matches s {| Keyword := kw'; Category := cat |}) /\
  (forall kw base cat d,
     Py.strip kw = base +:+ "*" ->
     Py.upper base <> base ->
     rule_matches (normalized d) {| Keyword := kw; Category := cat |} = false) /\
  (forall file r, r ∈ load_categories file -> Py.upper (Keyword r) = Keyword r).
Proof.
  split; [| split].
  - intros s kw kw' cat Hup Hkw. unfold rule_matches. cbn [Keyword].
    assert (Py.endswith (Py.strip kw') "*" = false) as Hkw'.
    { by rewrite <- endswith_star_upper, <- strip_upper, <- Hup, strip_upper,
        endswith_star_upper. }
    by rewrite Hkw, Hkw', <- !strip_upper, Hup.
  - intros kw base cat d Hkw Hbase.
    rewrite (wildcard_rule_matches _ _ base) by done.
    destruct (Re.search_word_start base (normalized d)) eqn:E; [| done].
    destruct Hbase. apply upper_no_lower.
    apply search_word_start_spec in E as (pre & post & Hd & _).
    eapply occurs_no_lower; [by exists pre, post | apply no_lower_normalized].
  - intros [rows|] r Hr; cbn [load_categories] in Hr.
    + apply list_elem_of_fmap in Hr as (r' & -> & _). cbn. apply upper_upper.
    + unfold starter_rules in Hr.
      repeat (apply elem_of_cons in Hr as [-> | Hr]; [reflexivity |]).
      by apply elem_of_nil in Hr.
Qed.

Lemma keyword_case_witness :
  rule_matches (normalized "netflix.com 4411")
    {| Keyword := "Netflix*"; Category := "Subscriptions" |} = false.
Proof.
  apply (proj1 (proj2 keyword_case) "Netflix*" "Netflix").
  - reflexivity.
  - discriminate.
Defined.

(** X6.  A rule whose keyword is empty, or is a lone star, once trimmed,
    matches every description: a non-missing description that reaches it
    gets its category. *)
Theorem empty_keyword_matches_everything (kw cat d : string) (later : list Rule) :
  Py.strip kw = "" \/ Py.strip kw = "*" ->
  categorize_transaction (Some d) ({| Keyword := kw; Category := cat |} :: later) = cat.
Proof.
  intros Hkw. unfold categorize_transaction.
  rewrite categorize_rows_cons. unfold rule_matches. cbn [Keyword Category].
  destruct Hkw as [-> | ->]; cbn; [| done].
  assert (Py.contains (Py.strip (Py.upper d)) "" = true) as ->; [| done].
  by destruct (Py.strip (Py.upper d)).
Qed.

Lemma empty_keyword_matches_everything_witness :
  categorize_transaction (Some "MANDY LAURIER OTTAWA")
    [ {| Keyword := "  "; Category := "Fees" |};
      {| Keyword := "MANDY"; Category := "Food & Dining" |} ] = "Fees".
Proof. apply empty_keyword_matches_everything. by left. Defined.

Section MoreExtractor.

Implicit Types (s t : string) (c : ascii).

(** ** Tokens *)

Lemma split_cons c s :
  Py.split (String c s) =
  if Py.isspace c then Py.split s
  else match s with
       | EmptyString => [String c EmptyString]
       | String c' _ =>
           if Py.isspace c' then String c EmptyString :: Py.split s
           else match Py.split s with
                | t :: ts => String c t :: ts
                | [] => [String c EmptyString]
                end
       end.
Proof. reflexivity. Qed.

Lemma split_tokens s : Forall is_token (Py.split s).
Proof.
  induction s as [|c s IH]; [constructor |]. rewrite split_cons.
  destruct (Py.isspace c) eqn:Ec; [done |].
  destruct s as [|c' s]; [by repeat constructor |].
  destruct (Py.isspace c') eqn:Ec'; [by repeat constructor |].
  destruct (Py.split (String c' s)) as [|t ts]; [by repeat constructor |].
  apply Forall_cons in IH as [[Ht Hns] Hts].
  constructor; [| done]. split; [done | by split].
Qed.

Lemma lstrip_token t : is_token t -> Py.lstrip t = t.
Proof. intros [Hne Hns]. destruct t as [|c t]; [done |]. cbn in *. by destruct Hns as [-> _]. Qed.

Lemma rstrip_no_space t : no_space t -> Py.rstrip t = t.
Proof.
  induction t as [|c t IH]; [done |]. intros [Hc Ht].
  rewrite rstrip_cons, IH, Hc by done. by destruct t.
Qed.

Lemma rstrip_app s t : t <> "" -> Py.rstrip t = t -> Py.rstrip (s +:+ t) = s +:+ t.
Proof.
  intros Hne Ht. induction s as [|c s IH]; [done |].
  rewrite app_cons_str, rstrip_cons, IH.
  destruct (s +:+ t) eqn:E; [| done].
  destruct s; [by rewrite app_nil_l_str in E | by rewrite app_cons_str in E].
Qed.

Lemma lstrip_app_token t s : is_token t -> Py.lstrip (t +:+ s) = t +:+ s.
Proof.
  intros [Hne Hns]. destruct t as [|c t]; [done |].
  rewrite app_cons_str. cbn in *. by destruct Hns as [-> _].
Qed.

Lemma strip_token_app t s :
  is_token t -> s <> "" -> Py.rstrip s = s -> Py.strip (t +:+ s) = t +:+ s.
Proof.
  intros Ht Hne Hs. unfold Py.strip.
  by rewrite lstrip_app_token, rstrip_app.
Qed.

Lemma strip_token t : is_token t -> Py.strip t = t.
Proof.
  intros Ht. unfold Py.strip. rewrite lstrip_token by done.
  apply rstrip_no_space, Ht.
Qed.

(** ** Upper case is kept along the pipeline *)

Lemma no_lower_slice_from n s : no_lower s -> no_lower (Py.slice_from n s).
Proof.
  revert s. induction n as [|n IH]; intros s; [done |].
  destruct s as [|c s]; [done |]. cbn. intros [_ Hs]. by apply IH.
Qed.

Lemma no_lower_slice_to n s : no_lower s -> no_lower (Py.slice_to n s).
Proof.
  revert s. induction n as [|n IH]; intros s; [done |].
  destruct s as [|c s]; [done |]. cbn. intros [Hc Hs]. split; [done | by apply IH].
Qed.

Lemma no_lower_sub_go k s : no_lower s -> no_lower (Re.sub_go k s).
Proof.
  revert k. induction s as [|c s IH]; intros k; [done |]. intros [Hc Hs].
  cbn [Re.sub_go]. destruct k as [|k]; [| by apply IH].
  destruct (Re.match_len _); [| by apply IH]. split; [done | by apply IH].
Qed.

Lemma no_lower_split s : no_lower s -> Forall no_lower (Py.split s).
Proof.
  induction s as [|c s IH]; [constructor |]. intros [Hc Hs].
  specialize (IH Hs). rewrite split_cons.
  destruct (Py.isspace c); [done |].
  destruct s as [|c' s]; [by repeat constructor |].
  destruct (Py.isspace c'); [by repeat constructor |].
  destruct (Py.split (String c' s)) as [|t ts]; [by repeat constructor |].
  apply Forall_cons in IH as [Ht Hts]. by repeat constructor.
Qed.

Lemma no_lower_remove_prefix s p : no_lower s -> no_lower (remove_prefix s p).
Proof.
  intros Hs. unfold remove_prefix. destruct (Py.startswith s p); [| done].
  by apply no_lower_slice_from.
Qed.

Lemma no_lower_strip_prefixes d : no_lower (strip_prefixes d).
Proof.
  unfold strip_prefixes. generalize (no_lower_upper d).
  generalize (Py.upper d) as s. induction prefixes_to_remove as [|p ps IH]; [done |].
  intros s Hs. cbn [fold_left]. by apply IH, no_lower_remove_prefix.
Qed.

Lemma no_lower_strip s : no_lower s -> no_lower (Py.strip s).
Proof. intros. eapply occurs_no_lower; [apply strip_occurs | done]. Qed.

Lemma brand_of_Some w b :
  brand_of w = Some b -> b ∈ common_brands.
Proof.
  unfold brand_of. intros H. apply find_some in H as [H _]. by apply list_elem_of_In.
Qed.

Lemma keyword_parts_incl parts t : t ∈ keyword_parts_of parts -> t ∈ parts.
Proof.
  unfold keyword_parts_of. intros H. apply list_elem_of_In, filter_In in H as [H _].
  apply list_elem_of_In in H. by apply (subseteq_take 3 parts).
Qed.

Lemma extract_cases d :
  (exists b, b ∈ common_brands /\ extract_keyword_from_description d = b +:+ "*") \/
  (exists kp0, kp0 ∈ parts_of d /\ extract_keyword_from_description d = kp0 +:+ "*") \/
  (exists kp0, kp0 ∈ parts_of d /\ extract_keyword_from_description d = kp0) \/
  (exists kp0 kp1, kp0 ∈ parts_of d /\ kp1 ∈ parts_of d /\
     extract_keyword_from_description d = kp0 +:+ " " +:+ kp1) \/
  extract_keyword_from_description d = Py.strip (Py.slice_to 20 (strip_prefixes d)).
Proof.
  unfold extract_keyword_from_description. fold (parts_of d).
  pose proof (keyword_parts_incl (parts_of d)) as Hin.
  destruct (parts_of d) as [|first_word later]; [by repeat right |].
  destruct (brand_of first_word) as [b|] eqn:Hb.
  { left. exists b. split; [by eapply brand_of_Some | done]. }
  right.
  destruct (keyword_parts_of (first_word :: later)) as [|kp0 [|kp1 kps']];
    [by repeat right | |].
  - assert (kp0 ∈ first_word :: later) as H0 by (apply Hin; left).
    assert (Py.join " " (firstn 2 [kp0]) = kp0) as -> by done.
    repeat match goal with |- context [if ?b then _ else _] => destruct b end.
    + left. by exists kp0.
    + right. left. by exists kp0.
    + right. left. by exists kp0.
  - assert (kp0 ∈ first_word :: later) as H0 by (apply Hin; left).
    assert (kp1 ∈ first_word :: later) as H1 by (apply Hin; right; left).
    assert (Py.join " " (firstn 2 (kp0 :: kp1 :: kps')) = kp0 +:+ " " +:+ kp1) as -> by done.
    repeat match goal with |- context [if ?b then _ else _] => destruct b end.
    + left. by exists kp0.
    + right. right. left. by exists kp0, kp1.
    + right. right. left. by exists kp0, kp1.
Qed.

End MoreExtractor.

(** X7.  The extracted keyword is in upper case and has no white space at
    its ends, whatever the description: the [keyword.upper()] of the
    labelling loop and the [strip()] of the classifier leave it as it is.
    The case of the description does not matter to it. *)
Theorem extracted_keyword_is_upper_and_trimmed (d : string) :
  Py.upper (extract_keyword_from_description d) = extract_keyword_from_description d /\
  Py.strip (extract_keyword_from_description d) = extract_keyword_from_description d /\
  extract_keyword_from_description (Py.upper d) = extract_keyword_from_description d /\
  extract_keyword_from_description (Py.lower d) = extract_keyword_from_description d.
Proof.
  assert (Forall is_token (parts_of d)) as Htok by apply split_tokens.
  assert (Forall no_lower (parts_of d)) as Hlow
    by apply no_lower_split, no_lower_sub_go, no_lower_strip_prefixes.
  rewrite Forall_forall in Htok. rewrite Forall_forall in Hlow.
  assert (is_token "*" /\ Py.rstrip "*" = "*") as [Hstar Hstar'] by (by repeat split).
  split; [| split; [| split]].
  - apply upper_no_lower.
    destruct (extract_cases d)
      as [(b & Hb & ->) | [(kp0 & H0 & ->) | [(kp0 & H0 & ->) | [(kp0 & kp1 & H0 & H1 & ->) | ->]]]].
    + unfold common_brands in Hb.
      repeat (apply elem_of_cons in Hb as [-> | Hb]; [by vm_compute |]).
      by apply elem_of_nil in Hb.
    + apply no_lower_app. split; [auto | by vm_compute].
    + auto.
    + rewrite !no_lower_app. split; [auto |]. split; [by vm_compute | auto].
    + apply no_lower_strip, no_lower_slice_to, no_lower_strip_prefixes.
  - destruct (extract_cases d)
      as [(b & Hb & ->) | [(kp0 & H0 & ->) | [(kp0 & H0 & ->) | [(kp0 & kp1 & H0 & H1 & ->) | ->]]]].
    + unfold common_brands in Hb.
      repeat (apply elem_of_cons in Hb as [-> | Hb]; [reflexivity |]).
      by apply elem_of_nil in Hb.
    + apply strip_token_app; [auto | done | done].
    + apply strip_token. auto.
    + apply strip_token_app; [auto | done |].
      change (" " +:+ kp1) with (String " " kp1). rewrite rstrip_cons.
      rewrite rstrip_no_space by apply (Htok kp1 H1).
      destruct kp1; [by destruct (Htok _ H1) | done].
    + apply strip_strip.
  - unfold extract_keyword_from_description, strip_prefixes. by rewrite upper_upper.
  - unfold extract_keyword_from_description, strip_prefixes. by rewrite upper_lower.
Qed.

(** * Blank descriptions *)

Section BlankDescriptions.

Implicit Types (s : string) (c : ascii).

Lemma isspace_not_digit c : Py.isspace c = true -> Py.isdigit_char c = false.
Proof. destruct c as [[] [] [] [] [] [] [] []]; vm_compute; congruence. Qed.

Lemma all_space_upper s : all_space (Py.upper s) = all_space s.
Proof. induction s as [|c s IH]; [done |]. cbn. by rewrite isspace_upper_char, IH. Qed.

Lemma all_space_remove_prefix s p :
  all_space s = true -> p ∈ prefixes_to_remove -> remove_prefix s p = s.
Proof.
  intros Hs Hp. unfold remove_prefix.
  assert (Py.startswith s p = false) as ->; [| done].
  destruct s as [|c s]; unfold prefixes_to_remove in Hp.
  - repeat (apply elem_of_cons in Hp as [-> | Hp]; [reflexivity |]).
    by apply elem_of_nil in Hp.
  - cbn in Hs. apply andb_true_iff in Hs as [Hc _].
    repeat (apply elem_of_cons in Hp as [-> | Hp];
            [cbn; apply andb_false_iff; left;
             destruct c as [[] [] [] [] [] [] [] []]; vm_compute in Hc |- *; congruence |]).
    by apply elem_of_nil in Hp.
Qed.

Lemma all_space_strip_prefixes d : all_space d = true -> strip_prefixes d = Py.upper d.
Proof.
  intros Hd. unfold strip_prefixes.
  assert (all_space (Py.upper d) = true) as Hu by (by rewrite all_space_upper).
  revert Hu. generalize (Py.upper d) as s.
  assert (forall p, p ∈ prefixes_to_remove -> p ∈ prefixes_to_remove) as Hin by done.
  revert Hin. generalize prefixes_to_remove at 1 3 as ps.
  induction ps as [|p ps IH]; [done |]. intros Hin s Hs. cbn [fold_left].
  rewrite all_space_remove_prefix; [| done | apply Hin; left].
  apply IH; [| done]. intros q Hq. apply Hin. by right.
Qed.

Lemma all_space_sub_go s : all_space s = true -> Re.sub_go 0 s = s.
Proof.
  induction s as [|c s IH]; [done |]. cbn [all_space]. intros [Hc Hs]%andb_true_iff.
  cbn [Re.sub_go].
  assert (Re.match_len (String c s) = 0) as ->.
  { unfold Re.match_len. cbn [Re.digit_run]. rewrite (isspace_not_digit c Hc).
    cbn. destruct s as [|? [|? [|? [|? ?]]]]; try done.
    by rewrite (isspace_not_digit c Hc). }
  by rewrite IH.
Qed.

Lemma all_space_split s : all_space s = true -> Py.split s = [].
Proof.
  induction s as [|c s IH]; [done |]. cbn [all_space]. intros [Hc Hs]%andb_true_iff.
  rewrite split_cons, Hc. auto.
Qed.

Lemma all_space_slice_to n s : all_space s = true -> all_space (Py.slice_to n s) = true.
Proof.
  revert s. induction n as [|n IH]; intros [|c s]; try done.
  cbn. intros [Hc Hs]%andb_true_iff. rewrite Hc. by apply IH.
Qed.

Lemma all_space_strip s : all_space s = true -> Py.strip s = "".
Proof.
  intros Hs. unfold Py.strip.
  assert (Py.lstrip s = "") as ->; [| done].
  induction s as [|c s IH]; [done |]. cbn in *.
  apply andb_true_iff in Hs as [-> Hs]. auto.
Qed.

Lemma blank_extract d : all_space d = true -> extract_keyword_from_description d = "".
Proof.
  intros Hd. unfold extract_keyword_from_description, Re.sub_ids_and_dates.
  assert (all_space (Py.upper d) = true) as Hu by (by rewrite all_space_upper).
  rewrite all_space_strip_prefixes, all_space_sub_go, all_space_split by done.
  by apply all_space_strip, all_space_slice_to.
Qed.

End BlankDescriptions.

(** X8.  For a description that is empty or all white space the extracted
    keyword is the empty string.  The rule the labelling loop builds from
    it matches every description, so that once it is appended no
    description that reaches it stays "Uncategorized" (unless that is the
    category chosen). *)
Theorem blank_description_gives_catch_all_rule (d : string) :
  all_space d = true ->
  extract_keyword_from_description d = "" /\
  forall (store : list Rule) (chosen d' : string),
    Forall (fun r => rule_matches (normalized d') r = false) store ->
    categorize_transaction (Some d')
      (store ++ [{| Keyword := Py.upper (extract_keyword_from_description d);
                    Category := chosen |}]) = chosen.
Proof.
  intros Hd. split; [by apply blank_extract |].
  intros store chosen d' Hstore.
  rewrite categorize_transaction_app_unmatched by done.
  rewrite blank_extract by done.
  unfold categorize_transaction. rewrite categorize_rows_cons.
  unfold rule_matches. cbn.
  by destruct (Py.strip (Py.upper d')).
Qed.

Lemma blank_description_gives_catch_all_rule_witness :
  categorize_transaction (Some "MANDY LAURIER OTTAWA")
    (starter_rules ++ [{| Keyword := Py.upper (extract_keyword_from_description "   ");
                          Category := "Fees" |}]) = "Fees".
Proof.
  apply (proj2 (blank_description_gives_catch_all_rule "   " eq_refl)).
  repeat constructor.
Defined.

(** X9.  The category list shown to the user and sent to the model is in
    ascending order and free of repetitions, and its members are exactly
    the categories of the rules on disk together with the nineteen fixed
    ones; so a number typed at the prompt names one category, and every
    category in use can be picked. *)
Theorem available_categories_sorted_unique (file : option (list Rule)) :
  StronglySorted String.le (get_available_categories file) /\
  NoDup (get_available_categories file) /\
  (forall c, c ∈ get_available_categories file <->
     (exists r, r ∈ load_categories file /\ Category r = c) \/ c ∈ extended_categories) /\
  19 <= length (get_available_categories file).
Proof.
  unfold get_available_categories.
  set (raw := (Category <$> load_categories file) ++ extended_categories).
  assert (forall c, c ∈ merge_sort String.le (remove_dups raw) <-> c ∈ raw) as Hin.
  { intros c. by rewrite merge_sort_Permutation, elem_of_remove_dups. }
  split; [apply StronglySorted_merge_sort; apply _ |].
  split; [rewrite merge_sort_Permutation; apply NoDup_remove_dups |].
  split.
  - intros c. rewrite Hin. unfold raw. rewrite elem_of_app, list_elem_of_fmap.
    split; (intros [(r & ? & ?) | ?]; [left; exists r | right]); done.
  - rewrite merge_sort_Permutation.
    assert (extended_categories ⊆+ remove_dups raw) as Hsub.
    { apply NoDup_submseteq; [by_compute |].
      intros c Hc. apply elem_of_remove_dups, elem_of_app. by right. }
    apply submseteq_length in Hsub. exact Hsub.
Qed.

(** * Saving the rules *)

Section KeepLast.

Context {A K : Type} `{EqDecision K} (key : A -> K).
Implicit Types (l rows : list A) (x : A) (k : K).

Local Abbreviation dedup := (drop_duplicates_keep_last key).
Local Abbreviation with_key k := (fun x => key x = k).

Lemma keep_last_cons x l :
  dedup (x :: l) = if decide (key x ∈ key <$> l) then dedup l else x :: dedup l.
Proof. cbn [drop_duplicates_keep_last]. by case_bool_decide; case_decide. Qed.

Lemma keep_last_sublist l : dedup l `sublist_of` l.
Proof.
  induction l as [|x l IH]; [done |]. rewrite keep_last_cons.
  case_decide; [by apply sublist_cons | by apply sublist_skip].
Qed.

Lemma keep_last_keys l k : k ∈ key <$> dedup l <-> k ∈ key <$> l.
Proof.
  induction l as [|x l IH]; [done |]. rewrite keep_last_cons. case_decide as Hx.
  - rewrite IH, fmap_cons, elem_of_cons. split; [auto | by intros [-> | ?]].
  - by rewrite !fmap_cons, !elem_of_cons, IH.
Qed.

Lemma keep_last_NoDup l : NoDup (key <$> dedup l).
Proof.
  induction l as [|x l IH]; [constructor |]. rewrite keep_last_cons.
  case_decide as Hx; [done |]. rewrite fmap_cons. constructor; [| done].
  by rewrite keep_last_keys.
Qed.

Lemma keep_last_id l : NoDup (key <$> l) -> dedup l = l.
Proof.
  induction l as [|x l IH]; [done |]. rewrite fmap_cons, NoDup_cons. intros [Hx Hl].
  rewrite keep_last_cons, decide_False by done. by rewrite IH.
Qed.

Lemma keep_last_idemp l : dedup (dedup l) = dedup l.
Proof. apply keep_last_id, keep_last_NoDup. Qed.

Lemma filter_nothing (P : A -> Prop) `{!forall x, Decision (P x)} l :
  (forall x, x ∈ l -> ~ P x) -> filter P l = [].
Proof.
  induction l as [|x l IH]; [done |]. intros Hnone.
  rewrite filter_cons_False by (apply Hnone; left).
  apply IH. intros y Hy. apply Hnone. by right.
Qed.

Lemma keep_last_filter l k :
  filter (with_key k) (dedup l) = option_list (last (filter (with_key k) l)).
Proof.
  induction l as [|x l IH]; [done |]. rewrite keep_last_cons.
  destruct (decide (key x = k)) as [Hk | Hk].
  - rewrite (filter_cons_True _ x l) by done. case_decide as Hx.
    + rewrite IH. apply list_elem_of_fmap in Hx as (y & Hkey & Hy).
      assert (y ∈ filter (with_key k) l) as Hin
        by (apply list_elem_of_filter; split; congruence).
      destruct (filter _ l) as [|z zs]; [by apply elem_of_nil in Hin |].
      by rewrite last_cons_cons.
    + rewrite filter_cons_True, IH by done.
      rewrite (filter_nothing _ l); [done |].
      intros y Hy Hyk. apply Hx. apply list_elem_of_fmap. exists y. split; congruence.
  - rewrite (filter_cons_False _ x l) by done.
    case_decide; [done |]. by rewrite filter_cons_False.
Qed.

Lemma keep_last_app_last l x : x ∈ dedup (l ++ [x]).
Proof.
  induction l as [|y l IH].
  - cbn. case_bool_decide as Hx; [by apply elem_of_nil in Hx | left].
  - rewrite <- app_comm_cons, keep_last_cons. case_decide; [done | by right].
Qed.

End KeepLast.

(** X10.  [save_categories] writes the rules with one row per keyword: of
    the rules of a keyword the last one, the rows kept staying in order.
    Rules whose keywords are all different are written unchanged, so
    saving what was saved changes nothing; every keyword held in memory is
    in the file. *)
Theorem save_categories_last_write_wins (categories_df : list Rule) :
  NoDup (Keyword <$> save_categories categories_df) /\
  save_categories categories_df `sublist_of` categories_df /\
  (forall kw,
     filter (fun r => Keyword r = kw) (save_categories categories_df)
     = option_list (last (filter (fun r => Keyword r = kw) categories_df))) /\
  (forall kw, kw ∈ Keyword <$> save_categories categories_df <->
              kw ∈ Keyword <$> categories_df) /\
  (NoDup (Keyword <$> categories_df) -> save_categories categories_df = categories_df) /\
  save_categories (save_categories categories_df) = save_categories categories_df.
Proof.
  unfold save_categories. repeat split.
  - apply keep_last_NoDup.
  - apply keep_last_sublist.
  - apply keep_last_filter.
  - apply keep_last_keys.
  - apply keep_last_keys.
  - apply keep_last_id.
  - apply keep_last_idemp.
Qed.

Lemma save_categories_last_write_wins_witness :
  save_categories
    [ {| Keyword := "COSTCO"; Category := "Groceries" |};
      {| Keyword := "UBER*"; Category := "Transportation" |} ]
  = [ {| Keyword := "COSTCO"; Category := "Groceries" |};
      {| Keyword := "UBER*"; Category := "Transportation" |} ].
Proof.
  apply (proj1 (proj2 (proj2 (proj2 (proj2 (save_categories_last_write_wins _)))))).
  by_compute.
Defined.

(** X11.  Saving can change what the classifier answers.  When a keyword
    is added a second time and another matching rule stands between the
    two, the store in memory answers with the first rule of the keyword,
    the saved file with the rule in between. *)
Theorem save_can_change_first_match (kw kw' c c' c'' d : string) :
  kw <> kw' ->
  rule_matches (normalized d) {| Keyword := kw; Category := c |} = true ->
  rule_matches (normalized d) {| Keyword := kw'; Category := c' |} = true ->
  categorize_transaction (Some d)
    [ {| Keyword := kw; Category := c |}; {| Keyword := kw'; Category := c' |};
      {| Keyword := kw; Category := c'' |} ] = c /\
  categorize_transaction (Some d)
    (save_categories
       [ {| Keyword := kw; Category := c |}; {| Keyword := kw'; Category := c' |};
         {| Keyword := kw; Category := c'' |} ]) = c'.
Proof.
  intros Hne Hkw Hkw'. unfold categorize_transaction. fold (normalized d). split.
  - by rewrite categorize_rows_cons, Hkw.
  - unfold save_categories. cbn.
    rewrite bool_decide_eq_true_2 by (right; left).
    rewrite bool_decide_eq_false_2.
    2:{ intros Hin. apply elem_of_cons in Hin as [? | Hin]; [done |].
        by apply elem_of_nil in Hin. }
    rewrite bool_decide_eq_false_2 by apply not_elem_of_nil.
    by rewrite categorize_rows_cons, Hkw'.
Qed.

Lemma save_can_change_first_match_witness :
  categorize_transaction (Some "COSTCO GAS W1234")
    [ {| Keyword := "COSTCO"; Category := "Groceries" |};
      {| Keyword := "COSTCO GAS"; Category := "Transportation" |};
      {| Keyword := "COSTCO"; Category := "Shopping" |} ] = "Groceries" /\
  categorize_transaction (Some "COSTCO GAS W1234")
    (save_categories
       [ {| Keyword := "COSTCO"; Category := "Groceries" |};
         {| Keyword := "COSTCO GAS"; Category := "Transportation" |};
         {| Keyword := "COSTCO"; Category := "Shopping" |} ]) = "Transportation".
Proof. apply save_can_change_first_match; [discriminate | reflexivity | reflexivity]. Defined.

(** * What the prompt returns *)

Section PromptResults.

Variable categories : list string.
Variable oracle : nat -> OracleReply.

Lemma rest_emit evs o : rest (emit evs o) = rest o.
Proof. reflexivity. Qed.

Lemma reads_prefix_emit inputs evs o : reads_prefix inputs (emit evs o) <-> reads_prefix inputs o.
Proof. reflexivity. Qed.

Lemma reads_prefix_cons line inputs o :
  reads_prefix inputs o -> reads_prefix (line :: inputs) o.
Proof. intros [used ->]. by exists (line :: used). Qed.

Lemma listed_or_typed_cons categories' line inputs c :
  listed_or_typed categories' inputs c -> listed_or_typed categories' (line :: inputs) c.
Proof.
  intros [? | [? | (? & l & ? & ?)]]; [by left | by right; left |].
  right. right. split; [done |]. exists l. split; [by right | done].
Qed.

Lemma pick_member n c : pick categories n = Some c -> c ∈ categories.
Proof.
  unfold pick. destruct (_ && _); [| done]. apply list_elem_of_lookup_2.
Qed.

Lemma select_category_result made inputs :
  let o := select_category categories made inputs in
  reads_prefix inputs o /\ made = calls o /\
  forall v, answer o = Some v -> exists c, v = Some c /\ listed_or_typed categories inputs c.
Proof.
  remember (length inputs) as n eqn:Hn. revert inputs Hn.
  induction (lt_wf n) as [n _ IH]. intros inputs ->.
  destruct inputs as [|line rest]; [by repeat split; try exists [] |].
  cbn [select_category]. cbn zeta.
  destruct (String.eqb _ "exit").
  { repeat split; [by exists [line] |]. intros v [= <-]. eexists. split; [done | by left]. }
  destruct (String.eqb _ "new").
  - destruct rest as [|line' rest']; [by repeat split; try exists [line] |].
    destruct (String.eqb (Py.strip line') "") eqn:E.
    + destruct (IH (length rest') ltac:(cbn; lia) rest' eq_refl) as (Hp & Hc & Hv).
      repeat split; [by do 2 apply reads_prefix_cons | done |].
      intros v Ha. destruct (Hv v Ha) as (c & -> & Hc'). exists c.
      split; [done | by do 2 apply listed_or_typed_cons].
    + repeat split; [by exists [line; line'] |]. intros v [= <-]. eexists. split; [done |].
      right. right. apply String.eqb_neq in E. split; [done |].
      exists line'. split; [right; left | done].
  - pose proof (IH (length rest) ltac:(cbn; lia) rest eq_refl) as (Hp & Hc & Hv).
    assert (let o := emit [AskNumber] (select_category categories made rest) in
            reads_prefix (line :: rest) o /\ made = calls o /\
            forall v, answer o = Some v ->
              exists c, v = Some c /\ listed_or_typed categories (line :: rest) c) as Hloop.
    { repeat split; [by apply reads_prefix_cons | done |].
      intros v Ha. destruct (Hv v Ha) as (c & -> & Hc'). exists c.
      split; [done | by apply listed_or_typed_cons]. }
    destruct (Py.int _) as [k|]; [| exact Hloop].
    destruct (pick categories (k - 1)) as [c|] eqn:Hpick; [| exact Hloop].
    repeat split; [by exists [line] |]. intros v [= <-]. exists c. split; [done |].
    right. left. by eapply pick_member.
Qed.

Lemma select_category_number_result made inputs :
  let o := select_category_number categories made inputs in
  reads_prefix inputs o /\ made = calls o /\
  forall v, answer o = Some v -> exists c, v = Some c /\ c ∈ categories.
Proof.
  induction inputs as [|line rest (Hp & Hc & Hv)]; [by repeat split; try exists [] |].
  cbn [select_category_number]. cbn zeta.
  assert (let o := emit [AskNumber] (select_category_number categories made rest) in
          reads_prefix (line :: rest) o /\ made = calls o /\
          forall v, answer o = Some v -> exists c, v = Some c /\ c ∈ categories) as Hloop.
  { repeat split; [by apply reads_prefix_cons | done | done]. }
  destruct (Py.int _) as [k|]; [| exact Hloop].
  destruct (pick categories (k - 1)) as [c|] eqn:Hpick; [| exact Hloop].
  repeat split; [by exists [line] |]. intros v [= <-]. exists c. split; [done |].
  by eapply pick_member.
Qed.

Lemma guess_member reply c :
  guess_category_with_ai categories reply = Some c -> c ∈ categories.
Proof.
  destruct reply as [| |status text]; try done. cbn.
  destruct (_ =? _)%Z; [| done]. case_bool_decide; [| done]. by intros [= <-].
Qed.

Lemma interactive_categorize_result description made inputs :
  let o := interactive_categorize categories oracle description made inputs in
  reads_prefix inputs o /\ made <= calls o /\
  forall v, answer o = Some v ->
    v = None \/ exists c, v = Some c /\ listed_or_typed categories inputs c.
Proof.
  remember (length inputs) as n eqn:Hn. revert inputs made Hn.
  induction (lt_wf n) as [n _ IH]. intros inputs made ->.
  destruct inputs as [|line rest]; [by repeat split; try exists [] |].
  cbn [interactive_categorize]. cbn zeta.
  destruct (String.eqb _ "1").
  { destruct (select_category_result made rest) as (Hp & Hc & Hv).
    repeat split; [by apply reads_prefix_cons | cbn; lia |].
    intros v Ha. right. destruct (Hv v Ha) as (c & -> & Hc'). exists c.
    split; [done | by apply listed_or_typed_cons]. }
  destruct (String.eqb _ "2").
  2:{ destruct (String.eqb _ "4").
      - repeat split; [by exists [line] | done |]. intros v [= <-]. right.
        eexists. split; [done | by left].
      - repeat split; [by exists [line] | done |]. intros v [= <-]. by left. }
  assert (let o := emit [Menu description]
                     (emit [AskOracle description]
                        (emit [ManualList]
                           (select_category_number categories (S made) rest))) in
          reads_prefix (line :: rest) o /\ made <= calls o /\
          forall v, answer o = Some v ->
            v = None \/ exists c, v = Some c /\ listed_or_typed categories (line :: rest) c)
    as Hmanual.
  { destruct (select_category_number_result (S made) rest) as (Hp & Hc & Hv).
    repeat split; [by apply reads_prefix_cons | cbn; lia |].
    intros v Ha. right. destruct (Hv v Ha) as (c & -> & Hc'). exists c.
    split; [done | by right; left]. }
  destruct (guess_category_with_ai _ _) as [suggested|] eqn:Hg; [| exact Hmanual].
  destruct (String.eqb suggested ""); [exact Hmanual |].
  destruct rest as [|line' rest']; [repeat split; [by exists [line] | cbn; lia | done] |].
  destruct (String.eqb _ "n").
  - destruct (IH (length rest') ltac:(cbn; lia) rest' (S made) eq_refl) as (Hp & Hc & Hv).
    repeat split; [by do 2 apply reads_prefix_cons | cbn in *; lia |].
    intros v Ha. destruct (Hv v Ha) as [-> | (c & -> & Hc')]; [by left | right].
    exists c. split; [done | by do 2 apply listed_or_typed_cons].
  - repeat split; [by exists [line; line'] | cbn; lia |]. intros v [= <-]. right.
    exists suggested. split; [done |]. right. left. by eapply guess_member.
Qed.

End PromptResults.

(** X12.  Whatever is typed and whatever the model answers, a call of the
    prompt reads some first lines of the input and returns nothing (a
    skip), the exit marker, a category of the list, or a non-empty trimmed
    line the user typed as a new category; a suggestion of the model is
    returned only if it is in the list. *)
Theorem prompt_returns_listed_or_typed
    (categories : list string) (oracle : nat -> OracleReply)
    (description : string) (made : nat) (inputs : list string) (v : option string) :
  answer (interactive_categorize categories oracle description made inputs) = Some v ->
  (v = None \/ exists c, v = Some c /\ listed_or_typed categories inputs c) /\
  reads_prefix inputs (interactive_categorize categories oracle description made inputs).
Proof.
  intros Ha.
  destruct (interactive_categorize_result categories oracle description made inputs)
    as (Hp & _ & Hv).
  split; [by apply Hv | done].
Qed.

Lemma prompt_returns_listed_or_typed_witness :
  (Some "Pets" = None \/
   exists c, Some "Pets" = Some c /\
     listed_or_typed (get_available_categories None) ["1"; "0"; "NEW"; " Pets "; "3"] c) /\
  reads_prefix ["1"; "0"; "NEW"; " Pets "; "3"]
    (interactive_categorize (get_available_categories None) (fun _ => NoApiKey)
       "ACME STORE" 0 ["1"; "0"; "NEW"; " Pets "; "3"]).
Proof.
  apply (prompt_returns_listed_or_typed (get_available_categories None) (fun _ => NoApiKey)
           "ACME STORE" 0 ["1"; "0"; "NEW"; " Pets "; "3"] (Some "Pets")).
  reflexivity.
Defined.

(** * The session: the labelling loop as a whole *)

Section LoopSteps.

Variable categories : list string.
Variable oracle : nat -> OracleReply.

(** One row of the loop: either the row is passed over and the state is
    kept, or the description is visited and the loop stops or goes on from
    one of the four states. *)
Lemma label_rows_cons row later st :
  ((row = None \/
    exists desc, row = Some desc /\
      (is_Some (categorized_descriptions st !! desc) \/
       categorize_transaction (Some desc) (categories_df st) <> Uncategorized \/
       desc ∈ uncategorized_descriptions st)) /\
   label_rows categories oracle (row :: later) st = label_rows categories oracle later st) \/
  exists desc o,
    row = Some desc /\
    (categorized_descriptions st !! desc) = None /\
    categorize_transaction (Some desc) (categories_df st) = Uncategorized /\
    (desc ∉ uncategorized_descriptions st) /\
    o = interactive_categorize categories oracle desc (oracle_calls st) (stdin st) /\
    ((answer o = None /\
      label_rows categories oracle (row :: later) st = after_eof st desc o) \/
     (answer o = Some (Some EXIT_AND_SAVE) /\
      label_rows categories oracle (row :: later) st = after_exit st desc o) \/
     (exists chosen, answer o = Some (Some chosen) /\ chosen <> EXIT_AND_SAVE /\
        chosen <> EmptyString /\
        label_rows categories oracle (row :: later) st
        = label_rows categories oracle later (after_rule st desc o chosen)) \/
     ((answer o = Some None \/ answer o = Some (Some EmptyString)) /\
      label_rows categories oracle (row :: later) st
      = label_rows categories oracle later (after_skip st desc o))).
Proof.
  destruct row as [desc|]; [| left; split; [by left | done]]. cbn [label_rows].
  destruct (categorized_descriptions st !! desc) eqn:Hc.
  { left. split; [| done]. right. exists desc. split; [done |]. left. by rewrite Hc. }
  destruct (String.eqb _ _) eqn:Hu; cbn [andb].
  2:{ left. split; [| done]. right. exists desc. split; [done |]. right. left.
      by apply String.eqb_neq. }
  case_bool_decide as Hfresh.
  2:{ left. split; [| done]. right. exists desc. split; [done |]. right. right.
      by destruct (decide (desc ∈ uncategorized_descriptions st)). }
  apply String.eqb_eq in Hu. right.
  exists desc, (interactive_categorize categories oracle desc (oracle_calls st) (stdin st)).
  do 5 (split; [done |]).
  destruct (answer _) as [new_category|]; [| by left].
  right. case_bool_decide as Hexit; [left; by rewrite Hexit |]. right.
  destruct new_category as [[|c0 cs]|].
  - right. split; [by right | done].
  - left. exists (String c0 cs). repeat split; try done. congruence.
  - right. split; [by left | done].
Qed.

(** A property that holds at the start and is kept by the four ways a
    visit can end holds at the end of the loop. *)
Lemma label_rows_invariant (P : LoopState -> Prop) descriptions st0 :
  P st0 ->
  (forall st desc o,
     P st -> Some desc ∈ descriptions ->
     (categorized_descriptions st !! desc) = None ->
     categorize_transaction (Some desc) (categories_df st) = Uncategorized ->
     desc ∉ uncategorized_descriptions st ->
     o = interactive_categorize categories oracle desc (oracle_calls st) (stdin st) ->
     (answer o = None -> P (after_eof st desc o)) /\
     (answer o = Some (Some EXIT_AND_SAVE) -> P (after_exit st desc o)) /\
     (forall chosen, answer o = Some (Some chosen) -> chosen <> EXIT_AND_SAVE ->
        chosen <> EmptyString -> P (after_rule st desc o chosen)) /\
     (answer o = Some None \/ answer o = Some (Some EmptyString) ->
        P (after_skip st desc o))) ->
  P (label_rows categories oracle descriptions st0).
Proof.
  intros H0 Hstep.
  assert (forall l st, (forall row, row ∈ l -> row ∈ descriptions) -> P st ->
            P (label_rows categories oracle l st)) as Hgen.
  { induction l as [|row later IH]; intros st Hin Hst; [done |].
    assert (forall r, r ∈ later -> r ∈ descriptions) as Hin' by (intros; apply Hin; by right).
    destruct (label_rows_cons row later st)
      as [[_ ->] | (desc & o & -> & Hc & Hu & Hf & Ho & Hcases)]; [by apply IH |].
    destruct (Hstep st desc o Hst (Hin _ ltac:(left)) Hc Hu Hf Ho) as (H1 & H2 & H3 & H4).
    destruct Hcases as [[Ha ->] | [[Ha ->] | [(chosen & Ha & Hne & Hne' & ->) | [Ha ->]]]];
      auto. }
  by apply Hgen.
Qed.


Lemma categorize_transaction_app_cases d (store extra : list Rule) :
  categorize_transaction (Some d) (store ++ extra) = categorize_transaction (Some d) store \/
  (categorize_transaction (Some d) store = Uncategorized /\
   categorize_transaction (Some d) (store ++ extra) = categorize_transaction (Some d) extra).
Proof.
  destruct (categorize_transaction_split d store)
    as [[Hnone Hres] | (earlier & r & later & Hs & He & Hr & Hres)].
  - right. split; [done |]. by apply categorize_transaction_app_unmatched.
  - left. apply categorize_transaction_app_matched.
    subst store. apply Exists_app. right. by left.
Qed.

Lemma categorize_transaction_app_labelled d (store extra : list Rule) :
  categorize_transaction (Some d) store <> Uncategorized ->
  categorize_transaction (Some d) (store ++ extra) = categorize_transaction (Some d) store.
Proof. by destruct (categorize_transaction_app_cases d store extra) as [? | [? ?]]. Qed.

Lemma categorize_transaction_app_unlabelled d (store extra : list Rule) :
  categorize_transaction (Some d) (store ++ extra) = Uncategorized ->
  categorize_transaction (Some d) store = Uncategorized.
Proof. destruct (categorize_transaction_app_cases d store extra) as [<- | [? ?]]; done. Qed.

Lemma visits_visit_log st desc o :
  visits (log o) = [] ->
  visits (events st ++ Visit desc :: log o) = visits (events st) ++ [desc].
Proof.
  intros Ho. by rewrite visits_app, visits_cons_visit, Ho.
Qed.


Lemma session_rules_more_events rules inputs st st' added :
  categories_df st' = categories_df st ->
  new_rules_added st' = new_rules_added st ->
  (exists evs, visits (events st') = visits (events st) ++ evs) ->
  session_rules categories rules inputs st added -> session_rules categories rules inputs st' added.
Proof.
  intros Hdf Hnew [evs Hevs] (Hrules & Hlen & Hflag & Hall).
  unfold session_rules. rewrite Hdf, Hnew, Hevs. repeat split; try done.
  - rewrite length_app. lia.
  - apply Hflag.
  - apply Hflag.
  - eapply Forall_impl; [done |]. intros r ((d & Hd & Hk) & ?). split; [| done].
    exists d. split; [| done]. apply elem_of_app. by left.
Qed.

Lemma label_rows_session_rules rules descriptions inputs :
  let st := label_rows categories oracle descriptions (loop_start rules inputs) in
  (exists added, session_rules categories rules inputs st added) /\
  (exists used, inputs = used ++ stdin st).
Proof.
  apply (label_rows_invariant
           (fun st => (exists added, session_rules categories rules inputs st added) /\
                      (exists used, inputs = used ++ stdin st))).
  { split; [| by exists []]. exists []. unfold session_rules. cbn.
    rewrite app_nil_r. repeat split; done. }
  intros st desc o [[added Hs] [used Hused]] _ _ _ _ Ho.
  pose proof (interactive_categorize_no_visit categories oracle desc
                (oracle_calls st) (stdin st)) as Hlog. rewrite <- Ho in Hlog.
  pose proof (visits_visit_log st desc o Hlog) as Hv.
  assert (exists used', inputs = used' ++ rest o) as Hrest.
  { destruct (interactive_categorize_result categories oracle desc (oracle_calls st) (stdin st))
      as [[more Hmore] _]. rewrite <- Ho in Hmore.
    exists (used ++ more). by rewrite <- app_assoc, <- Hmore. }
  split; [| split; [| split]].
  - intros _. split; [| done]. exists added.
    apply (session_rules_more_events rules inputs st); try done. by exists [desc].
  - intros _. split; [| done]. exists added.
    apply (session_rules_more_events rules inputs st); try done.
    exists [desc]. cbn [after_exit events]. by rewrite visits_app, Hv, app_nil_r.
  - intros chosen Ha Hne Hne'. split; [| done].
    exists (added ++ [{| Keyword := Py.upper (extract_keyword_from_description desc);
                         Category := chosen |}]).
    destruct Hs as (Hrules & Hlen & Hflag & Hall). unfold session_rules.
    cbn [after_rule categories_df events new_rules_added].
    rewrite visits_app, Hv, app_nil_r, Hrules, <- app_assoc. repeat split; try done.
    + rewrite !length_app. cbn. lia.
    + intros _. by destruct added.
    + apply Forall_app. split.
      * eapply Forall_impl; [done |]. intros r ((d & Hd & Hk) & ?). split; [| done].
        exists d. split; [| done]. apply elem_of_app. by left.
      * apply Forall_singleton. cbn [Keyword Category]. split; [| split; [done |]].
        { exists desc. split; [| done]. apply elem_of_app. right. by left. }
        destruct (interactive_categorize_result categories oracle desc
                    (oracle_calls st) (stdin st)) as (_ & _ & Hres).
        rewrite <- Ho, Ha in Hres.
        destruct (Hres _ eq_refl) as [? | (c & [= <-] & Hc)]; [done |].
        destruct Hc as [? | [? | (? & line & Hline & ->)]]; [by left | by right; left |].
        right. right. split; [done |]. exists line. split; [| done].
        rewrite Hused. apply elem_of_app. by right.
  - intros _. split; [| done]. exists added.
    apply (session_rules_more_events rules inputs st); try done. by exists [desc].
Qed.


Lemma prompt_event_emit evs o :
  Forall prompt_event evs -> Forall prompt_event (log o) ->
  Forall prompt_event (log (emit evs o)).
Proof. intros. rewrite log_emit. by apply Forall_app. Qed.

Lemma select_category_prompt_events made inputs :
  Forall prompt_event (log (select_category categories made inputs)).
Proof.
  remember (length inputs) as n eqn:Hn. revert inputs Hn.
  induction (lt_wf n) as [n _ IH]. intros inputs ->.
  destruct inputs as [|line rest]; [by repeat constructor |].
  cbn [select_category]. apply prompt_event_emit; [by repeat constructor |].
  destruct (String.eqb _ "exit"); [by constructor |].
  destruct (String.eqb _ "new").
  - destruct rest as [|line' rest']; [by repeat constructor |].
    apply prompt_event_emit; [by repeat constructor |].
    destruct (String.eqb _ ""); [| by constructor].
    eapply IH; [| reflexivity]. cbn. lia.
  - destruct (Py.int _) as [n|]; [destruct (pick _ _) |]; try (by constructor);
      (eapply IH; [| reflexivity]); cbn; lia.
Qed.

Lemma select_category_number_prompt_events made inputs :
  Forall prompt_event (log (select_category_number categories made inputs)).
Proof.
  induction inputs as [|line rest IH]; [by repeat constructor |].
  cbn [select_category_number]. apply prompt_event_emit; [by repeat constructor |].
  destruct (Py.int _) as [n|]; [destruct (pick _ _) |]; first [done | by constructor].
Qed.

Lemma interactive_categorize_prompt_events description made inputs :
  Forall prompt_event (log (interactive_categorize categories oracle description made inputs)).
Proof.
  remember (length inputs) as n eqn:Hn. revert inputs made Hn.
  induction (lt_wf n) as [n _ IH]. intros inputs made ->.
  destruct inputs as [|line rest]; [by repeat constructor |].
  cbn [interactive_categorize]. apply prompt_event_emit; [by repeat constructor |].
  destruct (String.eqb _ "1").
  { apply prompt_event_emit; [by repeat constructor |]. apply select_category_prompt_events. }
  destruct (String.eqb _ "2"); [| destruct (String.eqb _ "4"); by constructor].
  apply prompt_event_emit; [by repeat constructor |].
  assert (Forall prompt_event (log (emit [ManualList]
            (select_category_number categories (S made) rest)))) as Hmanual.
  { apply prompt_event_emit; [by repeat constructor |].
    apply select_category_number_prompt_events. }
  destruct (guess_category_with_ai _ _) as [suggested|]; [| done].
  destruct (String.eqb suggested ""); [done |].
  destruct rest as [|line' rest']; [by repeat constructor |].
  apply prompt_event_emit; [by repeat constructor |].
  destruct (String.eqb _ "n"); [| by constructor].
  eapply IH; [| reflexivity]. cbn. lia.
Qed.


Lemma session_marks_start rules descriptions inputs :
  session_marks rules descriptions (loop_start rules inputs).
Proof.
  unfold session_marks. cbn. split; [exists []; by rewrite app_nil_r |].
  split; [intros d Hd; by apply elem_of_nil in Hd |].
  split; [intros d; split; intros Hd; [set_solver | by apply elem_of_nil in Hd] |].
  split; [intros d c Hd; by rewrite lookup_empty in Hd |].
  intros kw c Hin. by apply elem_of_nil in Hin.
Qed.

Lemma rule_added_in_events st desc o tail kw c b :
  Forall prompt_event (log o) ->
  RuleAdded kw c b ∈ (events st ++ Visit desc :: log o) ++ tail ->
  RuleAdded kw c b ∈ events st \/ RuleAdded kw c b ∈ tail.
Proof.
  intros Hlog Hin. apply elem_of_app in Hin as [Hin | Hin]; [| by right].
  apply elem_of_app in Hin as [Hin | Hin]; [by left |].
  apply elem_of_cons in Hin as [Hin | Hin]; [done |].
  rewrite Forall_forall in Hlog. by destruct (Hlog _ Hin).
Qed.

(** A visit that leaves the rules as they are. *)
Lemma session_marks_visit rules descriptions st st' desc o tail :
  session_marks rules descriptions st ->
  Some desc ∈ descriptions ->
  categorize_transaction (Some desc) (categories_df st) = Uncategorized ->
  o = interactive_categorize categories oracle desc (oracle_calls st) (stdin st) ->
  (forall kw c, RuleAdded kw c true ∉ tail) -> visits tail = [] ->
  categories_df st' = categories_df st ->
  categorized_descriptions st' = categorized_descriptions st ->
  uncategorized_descriptions st' = {[ desc ]} ∪ uncategorized_descriptions st ->
  events st' = (events st ++ Visit desc :: log o) ++ tail ->
  session_marks rules descriptions st'.
Proof.
  intros ([added Hrules] & Hvis & Hseen & Hmap & Hcheck) Hin Hu Ho Htail Htail'
    Hdf Hcat Hunc Hev.
  pose proof (interactive_categorize_no_visit categories oracle desc
                (oracle_calls st) (stdin st)) as Hlog. rewrite <- Ho in Hlog.
  pose proof (interactive_categorize_prompt_events desc (oracle_calls st) (stdin st)) as Hpr.
  rewrite <- Ho in Hpr.
  assert (visits (events st') = visits (events st) ++ [desc]) as Hv.
  { by rewrite Hev, visits_app, visits_visit_log, Htail', app_nil_r. }
  unfold session_marks. rewrite Hdf, Hcat, Hunc, Hv.
  split; [by exists added |]. split; [| split; [| split]].
  - intros d Hd. apply elem_of_app in Hd as [Hd | Hd]; [by apply Hvis |].
    apply list_elem_of_singleton in Hd as ->. split; [done |].
    rewrite Hrules in Hu. by apply categorize_transaction_app_unlabelled in Hu.
  - intros d. rewrite elem_of_union, elem_of_singleton, elem_of_app, list_elem_of_singleton.
    specialize (Hseen d). tauto.
  - intros d c Hd. destruct (Hmap d c Hd) as [H1 H2]. split; [| done].
    apply elem_of_union. by right.
  - intros kw c Hadd Hc. rewrite Hev in Hadd.
    apply rule_added_in_events in Hadd as [Hadd | Hadd]; [| by destruct (Htail kw c) | done].
    by apply Hcheck.
Qed.

Lemma label_rows_session_marks rules descriptions inputs :
  session_marks rules descriptions
    (label_rows categories oracle descriptions (loop_start rules inputs)).
Proof.
  apply label_rows_invariant; [apply session_marks_start |].
  intros st desc o Hst Hin Hc Hu Hf Ho.
  split; [| split; [| split]].
  - intros _. apply (session_marks_visit rules descriptions st _ desc o []); try done.
    + intros kw c H. by apply elem_of_nil in H.
    + cbn. by rewrite app_nil_r.
  - intros _. apply (session_marks_visit rules descriptions st _ desc o [Exiting]); try done.
    intros kw c H. apply list_elem_of_singleton in H. discriminate.
  - intros chosen Ha Hne Hne'.
    destruct Hst as ([added Hrules] & Hvis & Hseen & Hmap & Hcheck).
    pose proof (interactive_categorize_no_visit categories oracle desc
                  (oracle_calls st) (stdin st)) as Hlog. rewrite <- Ho in Hlog.
    pose proof (interactive_categorize_prompt_events desc (oracle_calls st) (stdin st)) as Hpr.
    rewrite <- Ho in Hpr.
    unfold session_marks.
    cbn [after_rule categories_df events categorized_descriptions uncategorized_descriptions].
    rewrite visits_app, visits_visit_log, app_nil_r by done.
    split; [| split; [| split; [| split]]].
    + eexists. by rewrite Hrules, <- app_assoc.
    + intros d Hd. apply elem_of_app in Hd as [Hd | Hd]; [by apply Hvis |].
      apply list_elem_of_singleton in Hd as ->. split; [done |].
      rewrite Hrules in Hu. by apply categorize_transaction_app_unlabelled in Hu.
    + intros d. rewrite elem_of_union, elem_of_singleton, elem_of_app, list_elem_of_singleton.
      specialize (Hseen d). tauto.
    + intros d c Hd. destruct (decide (d = desc)) as [-> | Hdd].
      * rewrite lookup_insert_eq in Hd. injection Hd as <-.
        split; [apply elem_of_union; left; by apply elem_of_singleton |].
        apply elem_of_app. right. by left.
      * rewrite lookup_insert_ne in Hd by done. destruct (Hmap d c Hd) as [H1 H2].
        split; [apply elem_of_union; by right | apply elem_of_app; by left].
    + intros kw c Hadd Hcu.
      apply rule_added_in_events in Hadd as [Hadd | Hadd]; [| | done].
      * destruct (Hcheck kw c Hadd Hcu) as (d & Hd & Hkw & Hres).
        exists d. split; [| split; [done |]].
        { rewrite lookup_insert_ne; [done |]. intros <-. by rewrite Hc in Hd. }
        rewrite categorize_transaction_app_labelled; [done |]. by rewrite Hres.
      * apply list_elem_of_singleton in Hadd. injection Hadd as -> -> Hflag.
        symmetry in Hflag. apply String.eqb_eq in Hflag.
        exists desc. by rewrite lookup_insert_eq.
  - intros _. apply (session_marks_visit rules descriptions st _ desc o []); try done.
    + intros kw c H. by apply elem_of_nil in H.
    + cbn. by rewrite app_nil_r.
Qed.


Lemma label_rows_grows descriptions st :
  let st' := label_rows categories oracle descriptions st in
  (forall d, d ∈ uncategorized_descriptions st -> d ∈ uncategorized_descriptions st') /\
  (exists added, categories_df st' = categories_df st ++ added) /\
  (labelled_were_seen st -> labelled_were_seen st').
Proof.
  apply (label_rows_invariant (fun st' =>
    (forall d, d ∈ uncategorized_descriptions st -> d ∈ uncategorized_descriptions st') /\
    (exists added, categories_df st' = categories_df st ++ added) /\
    (labelled_were_seen st -> labelled_were_seen st'))).
  { split; [done |]. split; [| done]. exists []. by rewrite app_nil_r. }
  intros st1 desc o (Hsub & [added Hadd] & Hgood) _ _ _ _ _.
  assert (forall d, d ∈ uncategorized_descriptions st ->
            d ∈ {[ desc ]} ∪ uncategorized_descriptions st1) as Hsub'.
  { intros d Hd. apply elem_of_union. right. by apply Hsub. }
  assert (labelled_were_seen st ->
          forall d, is_Some (categorized_descriptions st1 !! d) ->
            d ∈ {[ desc ]} ∪ uncategorized_descriptions st1) as Hgood'.
  { intros Hst d Hd. apply elem_of_union. right. by apply Hgood. }
  split; [| split; [| split]]; intros;
    (split; [exact Hsub' |]); (split; [| try exact Hgood']); try (by exists added).
  - cbn [after_rule categories_df]. eexists. by rewrite Hadd, <- app_assoc.
  - intros Hst d Hd. cbn [after_rule categorized_descriptions uncategorized_descriptions] in *.
    destruct (decide (d = desc)) as [-> | Hne];
      [apply elem_of_union; left; by apply elem_of_singleton |].
    rewrite lookup_insert_ne in Hd by done. by apply Hgood'.
Qed.

(** When the loop runs to its end, every description of the column that
    the rules in memory leave without a category is in
    [uncategorized_descriptions]. *)
Lemma label_rows_complete descriptions st :
  labelled_were_seen st ->
  let st' := label_rows categories oracle descriptions st in
  raised st' = false -> early_exit st' = false ->
  forall d, Some d ∈ descriptions ->
    categorize_transaction (Some d) (categories_df st') = Uncategorized ->
    d ∈ uncategorized_descriptions st'.
Proof.
  revert st. induction descriptions as [|row later IH]; intros st Hgood st' Hr He d Hd Hu.
  { by apply elem_of_nil in Hd. }
  subst st'.
  destruct (label_rows_cons row later st)
    as [[Hwhy Heq] | (desc & o & -> & Hc & Hu0 & Hf & Ho & Hcases)].
  - rewrite Heq in *. apply elem_of_cons in Hd as [<- | Hd]; [| by apply IH].
    destruct (label_rows_grows later st) as (Hsub & [added Hadd] & _).
    destruct Hwhy as [? | (desc & [= <-] & [Hwhy | [Hwhy | Hwhy]])]; [done | | |].
    + by apply Hsub, Hgood.
    + rewrite Hadd in Hu. by apply categorize_transaction_app_unlabelled in Hu.
    + by apply Hsub.
  - destruct Hcases as [[_ Heq] | [[_ Heq] | [(chosen & _ & _ & _ & Heq) | [_ Heq]]]];
      rewrite Heq in *; try done.
    + assert (labelled_were_seen (after_rule st desc o chosen)) as Hgood'.
      { intros d' Hd'. cbn [after_rule categorized_descriptions uncategorized_descriptions] in *.
        destruct (decide (d' = desc)) as [-> | Hne];
          [apply elem_of_union; left; by apply elem_of_singleton |].
        rewrite lookup_insert_ne in Hd' by done. apply elem_of_union. right. by apply Hgood. }
      apply elem_of_cons in Hd as [[= <-] | Hd]; [| by apply IH].
      destruct (label_rows_grows later (after_rule st d o chosen)) as (Hsub & _ & _).
      apply Hsub.
      cbn [after_rule uncategorized_descriptions].
      apply elem_of_union. left. by apply elem_of_singleton.
    + assert (labelled_were_seen (after_skip st desc o)) as Hgood'.
      { intros d' Hd'. cbn. apply elem_of_union. right. by apply Hgood. }
      apply elem_of_cons in Hd as [[= <-] | Hd]; [| by apply IH].
      destruct (label_rows_grows later (after_skip st d o)) as (Hsub & _ & _).
      apply Hsub.
      cbn [after_skip uncategorized_descriptions].
      apply elem_of_union. left. by apply elem_of_singleton.
Qed.

(** The loop over [l1 ++ l2] is the loop over [l1], then -- unless the user
    left or [input()] raised -- the loop over [l2]. *)
Lemma label_rows_app l1 l2 st :
  raised st = false -> early_exit st = false ->
  label_rows categories oracle (l1 ++ l2) st
  = (let st1 := label_rows categories oracle l1 st in
     if early_exit st1 || raised st1 then st1 else label_rows categories oracle l2 st1).
Proof.
  revert st. induction l1 as [|[desc|] later IH]; intros st Hr He; cbn zeta.
  - cbn [app label_rows]. by rewrite Hr, He.
  - rewrite <- app_comm_cons. cbn [label_rows].
    destruct (categorized_descriptions st !! desc); [by apply IH |].
    destruct (String.eqb _ _); cbn [andb]; [| by apply IH].
    case_bool_decide; [| by apply IH].
    destruct (answer _) as [new_category|]; [| cbn; by rewrite orb_true_r].
    case_bool_decide; [done |].
    destruct new_category as [[|c0 cs]|]; by apply IH.
  - rewrite <- app_comm_cons. cbn [label_rows]. by apply IH.
Qed.

(** A column that the rules cover prompts for nothing. *)
Lemma label_rows_covered descriptions st :
  (forall d, Some d ∈ descriptions ->
     categorize_transaction (Some d) (categories_df st) <> Uncategorized) ->
  label_rows categories oracle descriptions st = st.
Proof.
  intros Hcov.
  apply (label_rows_invariant (fun st' => st' = st)); [done |].
  intros st1 desc o -> Hin _ Hu. by destruct (Hcov desc Hin).
Qed.


(** The loop never ends both left by the user and with [input()] raised. *)
Lemma label_rows_flags descriptions st :
  early_exit st = false ->
  let st' := label_rows categories oracle descriptions st in
  early_exit st' = true -> raised st' = false.
Proof.
  revert st. induction descriptions as [|row later IH]; intros st He st'; subst st'.
  { cbn. congruence. }
  destruct (label_rows_cons row later st)
    as [[_ ->] | (desc & o & -> & _ & _ & _ & _ & Hcases)]; [by apply IH |].
  destruct Hcases as [[_ ->] | [[_ ->] | [(chosen & _ & _ & _ & ->) | [_ ->]]]].
  - cbn. congruence.
  - done.
  - by apply IH.
  - by apply IH.
Qed.

End LoopSteps.


(** X14.  The descriptions the user is asked about are descriptions of
    the batch that the rules given to [process_files] leave
    "Uncategorized"; and when the loop runs to its end -- the user did not
    leave and [input()] did not raise -- every description of the batch
    that the rules in memory still leave "Uncategorized" was asked about. *)
Theorem prompted_are_the_unlabelled
    (file : option (list Rule)) (oracle : nat -> OracleReply) (rules : list Rule)
    (descriptions : list (option string)) (inputs : list string) :
  let st := process_files file oracle rules descriptions inputs in
  (forall d, d ∈ visits (events st) ->
     Some d ∈ descriptions /\ categorize_transaction (Some d) rules = Uncategorized) /\
  (raised st = false -> early_exit st = false ->
   forall d, Some d ∈ descriptions ->
     categorize_transaction (Some d) (categories_df st) = Uncategorized ->
     d ∈ visits (events st)).
Proof.
  intros st.
  destruct (label_rows_session_marks (get_available_categories file) oracle rules
              descriptions inputs) as (_ & Hvis & Hseen & _).
  split; [exact Hvis |]. intros Hr He d Hd Hu. apply Hseen.
  apply (label_rows_complete (get_available_categories file) oracle descriptions
           (loop_start rules inputs)); try done.
  intros d' [c Hc]. cbn in Hc. by rewrite lookup_empty in Hc.
Qed.

Lemma prompted_are_the_unlabelled_witness :
  "ACME 12" ∈ visits (events
    (process_files None (fun _ => NoApiKey) starter_rules recurring ["3"; "3"])).
Proof.
  apply (proj2 (prompted_are_the_unlabelled None (fun _ => NoApiKey) starter_rules
                  recurring ["3"; "3"])).
  - reflexivity.
  - reflexivity.
  - by_compute.
  - reflexivity.
Defined.

(** X15.  A batch in which every description has a category under the
    given rules prompts for nothing: the loop reads no input, asks the
    model nothing, adds no rule and the categories file is not written. *)
Theorem covered_batch_prompts_nothing
    (file : option (list Rule)) (oracle : nat -> OracleReply) (rules : list Rule)
    (descriptions : list (option string)) (inputs : list string) :
  (forall d, Some d ∈ descriptions ->
     categorize_transaction (Some d) rules <> Uncategorized) ->
  process_files file oracle rules descriptions inputs = loop_start rules inputs /\
  categories_written (process_files file oracle rules descriptions inputs) = None.
Proof.
  intros Hcov.
  assert (process_files file oracle rules descriptions inputs = loop_start rules inputs) as ->.
  { by apply label_rows_covered. }
  done.
Qed.

Lemma covered_batch_prompts_nothing_witness :
  process_files None (fun _ => NoApiKey) starter_rules
    [Some "Starbucks #441 Ottawa"; None; Some "UBER TRIP"; Some "Starbucks #441 Ottawa"]
    ["1"; "3"]
  = loop_start starter_rules ["1"; "3"] /\
  categories_written
    (process_files None (fun _ => NoApiKey) starter_rules
       [Some "Starbucks #441 Ottawa"; None; Some "UBER TRIP"; Some "Starbucks #441 Ottawa"]
       ["1"; "3"]) = None.
Proof.
  apply (covered_batch_prompts_nothing None (fun _ => NoApiKey) starter_rules).
  intros d Hd.
  repeat (apply elem_of_cons in Hd as [Hd | Hd];
          [first [discriminate Hd | injection Hd as ->; by vm_compute] |]).
  by apply elem_of_nil in Hd.
Defined.

(** X16.  The loop over a batch followed by further rows is the loop over
    the batch and then, from the state it left, the loop over the further
    rows -- unless the user left or [input()] raised, in which case the
    further rows are not looked at. *)
Theorem loop_stops_at_exit_or_eof
    (file : option (list Rule)) (oracle : nat -> OracleReply) (rules : list Rule)
    (batch further : list (option string)) (inputs : list string) :
  process_files file oracle rules (batch ++ further) inputs
  = (let st := process_files file oracle rules batch inputs in
     if early_exit st || raised st then st
     else label_rows (get_available_categories file) oracle further st).
Proof. by apply label_rows_app. Qed.

(** X17.  The categories file after the session.  When the loop ends
    without [input()] raising and the file is not written, the rules in
    memory are the given ones: no added rule is left unwritten.  When the
    file is written, every keyword in memory is in it, under distinct
    keywords, and so is the row of every description labelled in the
    session unless a later row has its keyword.  When the user left, the
    file is written.  When [input()] raised, it is not, whatever was added
    before -- and rules can have been added before. *)
Theorem categories_file_after_session
    (file : option (list Rule)) (oracle : nat -> OracleReply) (rules : list Rule)
    (descriptions : list (option string)) (inputs : list string) :
  let st := process_files file oracle rules descriptions inputs in
  (raised st = false -> categories_written st = None -> categories_df st = rules) /\
  (forall saved, categories_written st = Some saved ->
     NoDup (Keyword <$> saved) /\
     (forall r, r ∈ categories_df st -> Keyword r ∈ Keyword <$> saved) /\
     (forall d c, categorized_descriptions st !! d = Some c ->
        Py.upper (extract_keyword_from_description d) ∈ Keyword <$> saved)) /\
  (early_exit st = true -> categories_written st = Some (save_categories (categories_df st))) /\
  (raised st = true -> categories_written st = None) /\
  (exists descriptions' inputs',
     let st' := process_files None (fun _ => NoApiKey) starter_rules descriptions' inputs' in
     new_rules_added st' = true /\ categories_written st' = None).
Proof.
  intros st.
  destruct (label_rows_session_rules (get_available_categories file) oracle rules
              descriptions inputs) as [(added & Hrules & _ & Hflag & _) _].
  destruct (label_rows_session_marks (get_available_categories file) oracle rules
              descriptions inputs) as (_ & _ & _ & Hmap & _).
  pose proof (label_rows_flags (get_available_categories file) oracle descriptions
                (loop_start rules inputs) eq_refl) as Hflags.
  fold (process_files file oracle rules descriptions inputs) in Hrules, Hflag, Hmap, Hflags.
  fold st in Hrules, Hflag, Hmap, Hflags. cbn zeta in Hflags.
  unfold categories_written.
  split; [| split; [| split; [| split]]].
  - intros -> Hnone. destruct (new_rules_added st) eqn:Hnew; [done |].
    destruct added as [|r added]; [by rewrite Hrules, app_nil_r |].
    assert (false = true) by (by apply Hflag). done.
  - intros saved Hsaved.
    assert (saved = save_categories (categories_df st)) as ->.
    { destruct (raised st); [done |]. destruct (_ || _); congruence. }
    split; [apply keep_last_NoDup |].
    split.
    + intros r Hr. apply keep_last_keys. by apply list_elem_of_fmap_2.
    + intros d c Hd. apply keep_last_keys.
      destruct (Hmap d c Hd) as [_ Hin].
      by apply (list_elem_of_fmap_2 Keyword) in Hin.
  - intros He. rewrite (Hflags He), He. by rewrite orb_true_r.
  - by intros ->.
  - exists recurring, ["1"; "3"]. by vm_compute.
Qed.

Lemma categories_file_after_session_witness :
  categories_df
    (process_files None (fun _ => NoApiKey) starter_rules recurring ["3"; "3"])
  = starter_rules.
Proof.
  apply (proj1 (categories_file_after_session None (fun _ => NoApiKey) starter_rules
                  recurring ["3"; "3"])); reflexivity.
Defined.

(** X18.  What the session's rules do when the categories are applied
    with the rules in memory.  A description that had a category under the
    given rules keeps it.  A rule whose self check passed, for a category
    other than "Uncategorized", gives that category to the description it
    was made from, whatever rules were added after it.  Every description
    recorded as labelled was prompted for, and its rule is in memory. *)
Theorem session_labels_are_applied
    (file : option (list Rule)) (oracle : nat -> OracleReply) (rules : list Rule)
    (descriptions : list (option string)) (inputs : list string) :
  let st := process_files file oracle rules descriptions inputs in
  (forall d, categorize_transaction (Some d) rules <> Uncategorized ->
     categorize_transaction (Some d) (categories_df st)
     = categorize_transaction (Some d) rules) /\
  (forall kw c, RuleAdded kw c true ∈ events st -> c <> Uncategorized ->
     exists d, d ∈ visits (events st) /\
       kw = extract_keyword_from_description d /\
       categorized_descriptions st !! d = Some c /\
       categorize_transaction (Some d) (categories_df st) = c) /\
  (forall d c, categorized_descriptions st !! d = Some c ->
     d ∈ visits (events st) /\
     {| Keyword := Py.upper (extract_keyword_from_description d); Category := c |}
       ∈ categories_df st).
Proof.
  intros st.
  destruct (label_rows_session_marks (get_available_categories file) oracle rules
              descriptions inputs) as ([added Hrules] & _ & Hseen & Hmap & Hcheck).
  fold (process_files file oracle rules descriptions inputs) in Hrules, Hseen, Hmap, Hcheck.
  fold st in Hrules, Hseen, Hmap, Hcheck.
  split; [| split].
  - intros d Hd. rewrite Hrules. by apply categorize_transaction_app_labelled.
  - intros kw c Hadd Hc. destruct (Hcheck kw c Hadd Hc) as (d & Hd & Hkw & Hres).
    exists d. repeat split; try done. apply Hseen. by apply (Hmap d c).
  - intros d c Hd. destruct (Hmap d c Hd) as [H1 H2]. split; [by apply Hseen | done].
Qed.

Lemma session_labels_are_applied_witness :
  categorize_transaction (Some "Starbucks #441 Ottawa")
    (categories_df
       (process_files None (fun _ => NoApiKey) starter_rules recurring ["1"; "3"; "3"]))
  = categorize_transaction (Some "Starbucks #441 Ottawa") starter_rules.
Proof.
  apply (proj1 (session_labels_are_applied None (fun _ => NoApiKey) starter_rules
                  recurring ["1"; "3"; "3"])).
  by vm_compute.
Defined.

(** * The debugging script *)

Section DebugScript.

Implicit Types (rules : list Rule) (r : Rule) (d kw cat : string).

Lemma load_categories_upper file r :
  r ∈ load_categories file -> Py.upper (Keyword r) = Keyword r.
Proof.
  destruct file as [rows|]; cbn [load_categories]; intros Hr.
  - apply list_elem_of_fmap in Hr as (r' & -> & _). cbn. apply upper_upper.
  - unfold starter_rules in Hr.
    repeat (apply elem_of_cons in Hr as [-> | Hr]; [reflexivity |]).
    by apply elem_of_nil in Hr.
Qed.

(** On a trimmed upper-case keyword the script makes the test of
    [categorize_transaction]. *)
Lemma debug_matching_rules_cons desc_upper r rules :
  Py.strip (Keyword r) = Keyword r -> Py.upper (Keyword r) = Keyword r ->
  debug_matching_rules desc_upper (r :: rules) =
  if rule_matches desc_upper r
  then (Keyword r, Category r,
        if Py.endswith (Keyword r) "*" then WildcardMatch else ExactMatch)
       :: debug_matching_rules desc_upper rules
  else debug_matching_rules desc_upper rules.
Proof.
  intros Hs Hu. cbn [debug_matching_rules]. unfold rule_matches. rewrite Hs, Hu.
  by destruct (Py.endswith (Keyword r) "*").
Qed.

Lemma debug_matching_rules_head desc_upper rules :
  Forall (fun r => Py.strip (Keyword r) = Keyword r /\ Py.upper (Keyword r) = Keyword r) rules ->
  categorize_rows desc_upper rules
  = match debug_matching_rules desc_upper rules with
    | [] => Uncategorized
    | (_, category, _) :: _ => category
    end.
Proof.
  induction 1 as [|r rules [Hs Hu] _ IH]; [done |].
  rewrite categorize_rows_cons, debug_matching_rules_cons by done.
  by destruct (rule_matches desc_upper r).
Qed.

Lemma length_app_str (s t : string) :
  String.length (s +:+ t) = String.length s + String.length t.
Proof. induction s as [|c s IH]; [done |]. rewrite app_cons_str. cbn. by rewrite IH. Qed.

Lemma contains_length s sub : Py.contains s sub = true -> String.length sub <= String.length s.
Proof.
  intros H. apply contains_spec in H as (pre & post & ->).
  rewrite !length_app_str. lia.
Qed.

Lemma contains_refl s : Py.contains s s = true.
Proof. apply contains_spec. exists "", "". by rewrite app_nil_l_str, app_nil_r_str. Qed.

End DebugScript.

(** X19.  The debugging script against the classifier.  For a trimmed
    description, and a categories file whose keywords have no white space
    around them, the category [categorize_transaction] gives is the
    category of the first rule the script lists as matching, and
    "Uncategorized" when it lists none.  A keyword followed by a blank
    breaks this: the classifier trims it and matches, the script does not
    and lists nothing. *)
Theorem debug_script_agrees_with_classifier :
  (forall (file : option (list Rule)) (d : string),
     Py.strip d = d ->
     Forall (fun r => Py.strip (Keyword r) = Keyword r) (load_categories file) ->
     categorize_transaction (Some d) (load_categories file)
     = match matching_rules d (load_categories file) with
       | [] => Uncategorized
       | (_, category, _) :: _ => category
       end) /\
  (forall kw cat : string,
     is_token kw -> Py.upper kw = kw -> Py.endswith kw "*" = false ->
     let rule := {| Keyword := kw +:+ " "; Category := cat |} in
     categorize_transaction (Some kw) [rule] = cat /\ matching_rules kw [rule] = []).
Proof.
  split.
  - intros file d Hd Hkw. unfold categorize_transaction, matching_rules.
    rewrite strip_upper, Hd. apply debug_matching_rules_head.
    apply Forall_forall. intros r Hr. split.
    + rewrite Forall_forall in Hkw. by apply Hkw.
    + by apply (load_categories_upper file).
  - intros kw cat Hkw Hup Hstar rule.
    assert (Py.strip (kw +:+ " ") = kw) as Hstrip.
    { unfold Py.strip. rewrite lstrip_app_token by done.
      destruct Hkw as [_ Hns]. clear Hup Hstar rule.
      induction kw as [|c kw IH]; [done |]. destruct Hns as [Hc Hns].
      rewrite app_cons_str, rstrip_cons, IH, Hc by done. by destruct kw. }
    assert (Py.endswith (kw +:+ " ") "*" = false) as Hstar'.
    { destruct (Py.endswith (kw +:+ " ") "*") eqn:E; [| done].
      apply endswith_spec in E as [pre E].
      apply (f_equal (fun s => Py.endswith s " ")) in E.
      assert (Py.endswith (kw +:+ " ") " " = true) as Hl by (apply endswith_spec; by exists kw).
      assert (Py.endswith (pre +:+ "*") " " = false) as Hr.
      { clear. induction pre as [|c pre IH]; [done |].
        rewrite app_cons_str. cbn [Py.endswith]. rewrite IH, orb_false_r.
        apply String.eqb_neq. destruct pre; [| discriminate].
        rewrite app_nil_l_str. discriminate. }
      congruence. }
    split.
    + unfold categorize_transaction. rewrite categorize_rows_cons.
      unfold rule_matches, rule. cbn [Keyword Category].
      rewrite Hstrip, Hstar, !Hup, (strip_token kw) by done.
      by rewrite contains_refl.
    + unfold matching_rules, rule. cbn [debug_matching_rules Keyword Category].
      rewrite Hstar', Hup.
      destruct (Py.contains kw (kw +:+ " ")) eqn:E; [| done].
      apply contains_length in E. rewrite length_app_str in E. cbn in E. lia.
Qed.

Lemma debug_script_agrees_with_classifier_witness :
  categorize_transaction (Some "TIM HORTONS #1234 UBER")
    (load_categories (Some [ {| Keyword := "Tim Hortons"; Category := "Food & Dining" |};
                             {| Keyword := "uber*"; Category := "Transportation" |} ]))
  = match matching_rules "TIM HORTONS #1234 UBER"
            (load_categories (Some [ {| Keyword := "Tim Hortons"; Category := "Food & Dining" |};
                                     {| Keyword := "uber*"; Category := "Transportation" |} ])) with
    | [] => Uncategorized
    | (_, category, _) :: _ => category
    end.
Proof.
  apply (proj1 debug_script_agrees_with_classifier).
  - reflexivity.
  - by repeat constructor.
Defined.

(** * The statement files *)

Section ColumnMapping.

Implicit Types (variants columns cols : list string) (mapping : list (string * string)).

Lemma first_variant_spec variants columns v :
  first_variant variants columns = Some v <->
  exists before after,
    variants = before ++ v :: after /\ v ∈ columns /\ Forall (fun x => x ∉ columns) before.
Proof.
  unfold first_variant. induction variants as [|x variants IH]; cbn [find].
  - split; [done |]. intros (before & after & H & _). by destruct before.
  - case_bool_decide as Hx.
    + split.
      * intros [= <-]. by exists [], variants.
      * intros ([|y before] & after & H & Hv & Hb); [by injection H as -> |].
        injection H as -> _. by apply Forall_cons in Hb as [? _].
    + rewrite IH. split.
      * intros (before & after & -> & Hv & Hb). exists (x :: before), after.
        repeat split; try done. by constructor.
      * intros ([|y before] & after & H & Hv & Hb); [by injection H as -> |].
        injection H as -> ->. apply Forall_cons in Hb as [_ Hb]. by exists before, after.
Qed.

Lemma first_variant_ext variants columns columns' :
  (forall c, c ∈ columns <-> c ∈ columns') ->
  first_variant variants columns = first_variant variants columns'.
Proof.
  intros H. unfold first_variant. induction variants as [|x variants IH]; [done |].
  cbn [find]. rewrite IH. by rewrite (bool_decide_ext _ _ (H x)).
Qed.

Lemma any_variant_ext variants columns columns' :
  (forall c, c ∈ columns <-> c ∈ columns') ->
  any_variant variants columns = any_variant variants columns'.
Proof.
  intros H. unfold any_variant. induction variants as [|x variants IH]; [done |].
  cbn [existsb]. rewrite IH. by rewrite (bool_decide_ext _ _ (H x)).
Qed.

Lemma any_variant_first variants columns :
  any_variant variants columns = true <-> is_Some (first_variant variants columns).
Proof.
  unfold any_variant, first_variant. induction variants as [|x variants IH]; cbn.
  - split; [done | by intros [? ?]].
  - case_bool_decide; [by split; eauto | done].
Qed.

Lemma map_variant_ext key variants columns columns' :
  (forall c, c ∈ columns <-> c ∈ columns') ->
  map_variant key variants columns = map_variant key variants columns'.
Proof. intros H. unfold map_variant. by rewrite (first_variant_ext _ _ _ H). Qed.

Lemma map_variant_elem_of key variants columns k v :
  (k, v) ∈ map_variant key variants columns ->
  k = key /\ first_variant variants columns = Some v.
Proof.
  unfold map_variant. destruct (first_variant variants columns) as [x|]; intros H.
  - by apply list_elem_of_singleton in H as [= -> ->].
  - by apply elem_of_nil in H.
Qed.

Lemma first_variant_elem_of variants columns v :
  first_variant variants columns = Some v -> v ∈ variants /\ v ∈ columns.
Proof.
  intros H. apply first_variant_spec in H as (before & after & -> & Hv & _).
  split; [| done]. apply elem_of_app. right. by left.
Qed.


(** *** Renaming *)













Lemma table_mapping_cons key variants table columns :
  table_mapping ((key, variants) :: table) columns
  = map_variant key variants columns ++ table_mapping table columns.
Proof. reflexivity. Qed.

Lemma table_mapping_elem_of table columns k v :
  (k, v) ∈ table_mapping table columns ->
  exists variants, (k, variants) ∈ table /\ first_variant variants columns = Some v.
Proof.
  induction table as [|[key variants] table IH]; [by intros H%elem_of_nil |].
  rewrite table_mapping_cons, elem_of_app. intros [H | H].
  - apply map_variant_elem_of in H as [-> H]. exists variants. split; [by left | done].
  - destruct (IH H) as (vs & Hin & Hv). exists vs. split; [by right | done].
Qed.

Lemma table_mapping_tidy table columns :
  tidy_table table -> tidy (table_mapping table columns).
Proof.
  intros (Hkeys & Holds & Hself). split; [| split].
  - clear Holds Hself. induction table as [|[key variants] table IH]; [constructor |].
    rewrite fmap_cons in Hkeys. apply NoDup_cons in Hkeys as [Hkey Hkeys].
    rewrite table_mapping_cons, fmap_app. apply NoDup_app. split; [| split; [| by apply IH]].
    + unfold map_variant. destruct (first_variant _ _); [apply NoDup_singleton | constructor].
    + intros k Hk Hk'. apply list_elem_of_fmap in Hk as ([k1 v1] & -> & Hk).
      apply map_variant_elem_of in Hk as [-> _].
      apply list_elem_of_fmap in Hk' as ([k2 v2] & Heq & Hk'). cbn in Heq. subst k2.
      apply table_mapping_elem_of in Hk' as (vs & Hin & _).
      apply Hkey. by apply (list_elem_of_fmap_2 fst) in Hin.
  - clear Hkeys Hself. induction table as [|[key variants] table IH]; [constructor |].
    rewrite fmap_cons in Holds. cbn [snd] in Holds.
    change (NoDup (variants ++ mjoin table.*2)) in Holds.
    apply NoDup_app in Holds as (_ & Hdisj & Holds).
    rewrite table_mapping_cons, fmap_app. apply NoDup_app. split; [| split; [| by apply IH]].
    + unfold map_variant. destruct (first_variant _ _); [apply NoDup_singleton | constructor].
    + intros v Hv Hv'. apply list_elem_of_fmap in Hv as ([k1 v1] & -> & Hv).
      apply map_variant_elem_of in Hv as [_ Hv]. apply first_variant_elem_of in Hv as [Hv _].
      apply list_elem_of_fmap in Hv' as ([k2 v2] & Heq & Hv'). cbn in Heq. subst v2.
      apply table_mapping_elem_of in Hv' as (vs & Hin & Hv').
      apply first_variant_elem_of in Hv' as [Hv' _].
      apply (Hdisj v1); [done |]. apply list_elem_of_join. exists vs. split; [done |].
      by apply (list_elem_of_fmap_2 snd) in Hin.
  - apply Forall_forall. intros [k v] Hin. cbn [fst snd].
    pose proof Hin as Hin0.
    apply table_mapping_elem_of in Hin as (vs & Hin & Hv).
    apply first_variant_elem_of in Hv as [Hv _].
    rewrite Forall_forall in Hself. specialize (Hself _ Hin). cbn in Hself.
    rewrite Forall_forall in Hself. destruct (Hself v Hv) as [? | Hnot]; [by left | right].
    intros Hk. apply Hnot. apply list_elem_of_fmap in Hk as ([k' v'] & -> & Hk).
    apply table_mapping_elem_of in Hk as (vs' & Hk & _).
    by apply (list_elem_of_fmap_2 fst) in Hk.
Qed.

(** The two mappings as tables. *)
Lemma bank_column_mapping_table df_columns :
  bank_column_mapping df_columns
  = table_mapping
      ([("Date", bank_date_variants); ("Description", bank_desc_variants)]
       ++ (if any_variant bank_amount_variants (Py.strip <$> df_columns)
           then [("Amount", bank_amount_variants)]
           else if any_variant debit_variants (Py.strip <$> df_columns)
                   && any_variant credit_variants (Py.strip <$> df_columns)
                then [("Debit", debit_variants); ("Credit", credit_variants)]
                else []))
      (Py.strip <$> df_columns).
Proof.
  unfold bank_column_mapping. cbn zeta.
  destruct (any_variant bank_amount_variants _); [| destruct (_ && _)];
    cbn [app table_mapping flat_map]; by rewrite ?app_nil_r.
Qed.

Lemma credit_column_mapping_table df_columns :
  credit_column_mapping df_columns
  = table_mapping
      [("Date", credit_date_variants); ("Description", credit_desc_variants);
       ("Amount", credit_amount_variants); ("Card", card_variants)]
      (Py.strip <$> df_columns).
Proof. unfold credit_column_mapping. cbn [table_mapping flat_map]. by rewrite app_nil_r. Qed.

Lemma bank_mapping_tidy df_columns : tidy (bank_column_mapping df_columns).
Proof.
  rewrite bank_column_mapping_table. apply table_mapping_tidy.
  destruct (any_variant bank_amount_variants _); [| destruct (_ && _)];
    unfold tidy_table; by_compute.
Qed.

Lemma credit_mapping_tidy df_columns : tidy (credit_column_mapping df_columns).
Proof.
  rewrite credit_column_mapping_table. apply table_mapping_tidy.
  unfold tidy_table. by_compute.
Qed.


Lemma table_mapping_keys table columns k :
  k ∈ (table_mapping table columns).*1 -> k ∈ table.*1.
Proof.
  intros Hk. apply list_elem_of_fmap in Hk as ([k' v] & -> & Hk).
  apply table_mapping_elem_of in Hk as (vs & Hk & _).
  by apply (list_elem_of_fmap_2 fst) in Hk.
Qed.


Lemma table_mapping_intro table columns k variants v :
  (k, variants) ∈ table -> first_variant variants columns = Some v ->
  (k, v) ∈ table_mapping table columns.
Proof.
  intros Hin Hv. induction table as [|[key vs] table IH]; [by apply elem_of_nil in Hin |].
  rewrite table_mapping_cons, elem_of_app.
  apply elem_of_cons in Hin as [[= <- <-] | Hin]; [left | right; by apply IH].
  unfold map_variant. rewrite Hv. by left.
Qed.


Lemma elem_of_strip_columns cols c : c ∈ cols -> Py.strip c = c -> c ∈ Py.strip <$> cols.
Proof. intros Hc <-. by apply list_elem_of_fmap_2. Qed.

Lemma first_variant_head v variants columns :
  v ∈ columns -> first_variant (v :: variants) columns = Some v.
Proof. intros Hv. unfold first_variant. cbn [find]. by rewrite bool_decide_eq_true_2. Qed.

Lemma any_variant_elem_of variants columns v :
  v ∈ variants -> v ∈ columns -> any_variant variants columns = true.
Proof.
  intros Hv Hc. unfold any_variant. apply existsb_exists. exists v.
  split; [by apply list_elem_of_In | by apply bool_decide_eq_true_2].
Qed.


End ColumnMapping.

(** X20.  The column mappings of the two normalizers.  For each key the
    mapping holds the first variant, in the order of its list, that is
    among the trimmed labels of the file; so the mapping depends on which
    labels the file has and not on their order.  No key and no label is
    mapped twice.  In a bank file an amount column rules out the debit and
    credit columns, which are mapped together or not at all.  When a file
    has both an Amount and a CAD$ column, the bank mapping takes Amount
    and the credit card mapping takes CAD$. *)
Theorem column_mapping_takes_first_variant (df_columns : list string) :
  let columns := Py.strip <$> df_columns in
  (forall variants variant,
     first_variant variants columns = Some variant <->
     exists before after,
       variants = before ++ variant :: after /\ variant ∈ columns /\
       Forall (fun earlier => earlier ∉ columns) before) /\
  (forall mapping,
     mapping = bank_column_mapping df_columns \/ mapping = credit_column_mapping df_columns ->
     NoDup mapping.*1 /\ NoDup mapping.*2 /\
     forall key variant, (key, variant) ∈ mapping -> variant ∈ columns) /\
  (forall df_columns',
     (forall c, c ∈ columns <-> c ∈ Py.strip <$> df_columns') ->
     bank_column_mapping df_columns' = bank_column_mapping df_columns /\
     credit_column_mapping df_columns' = credit_column_mapping df_columns) /\
  ("Amount" ∈ (bank_column_mapping df_columns).*1 ->
   ("Debit" ∉ (bank_column_mapping df_columns).*1) /\
   ("Credit" ∉ (bank_column_mapping df_columns).*1)) /\
  ("Debit" ∈ (bank_column_mapping df_columns).*1 <->
   "Credit" ∈ (bank_column_mapping df_columns).*1) /\
  ("Amount" ∈ columns -> "CAD$" ∈ columns ->
   ("Amount", "Amount") ∈ bank_column_mapping df_columns /\
   ("Amount", "CAD$") ∈ credit_column_mapping df_columns).
Proof.
  intros columns. split; [intros; apply first_variant_spec |].
  split; [| split; [| split; [| split]]].
  - intros mapping [-> | ->].
    + destruct (bank_mapping_tidy df_columns) as (H1 & H2 & _).
      split; [done |]. split; [done |]. intros key variant Hin.
      rewrite bank_column_mapping_table in Hin.
      apply table_mapping_elem_of in Hin as (vs & _ & Hv).
      by apply first_variant_elem_of in Hv as [_ Hv].
    + destruct (credit_mapping_tidy df_columns) as (H1 & H2 & _).
      split; [done |]. split; [done |]. intros key variant Hin.
      rewrite credit_column_mapping_table in Hin.
      apply table_mapping_elem_of in Hin as (vs & _ & Hv).
      by apply first_variant_elem_of in Hv as [_ Hv].
  - intros df_columns' Hsame. unfold bank_column_mapping, credit_column_mapping. cbn zeta.
    fold columns.
    assert (forall c, c ∈ Py.strip <$> df_columns' <-> c ∈ columns) as Hsame'
      by (intros c; by rewrite Hsame).
    by rewrite !(map_variant_ext _ _ _ _ Hsame'), !(any_variant_ext _ _ _ Hsame').
  - rewrite bank_column_mapping_table. fold columns. intros Hamount.
    destruct (any_variant bank_amount_variants columns).
    + split; intros Hk; apply table_mapping_keys in Hk; revert Hk; by_compute.
    + apply table_mapping_keys in Hamount. exfalso. revert Hamount.
      destruct (_ && _); by_compute.
  - rewrite bank_column_mapping_table. fold columns.
    destruct (any_variant bank_amount_variants columns).
    { split; intros Hk; apply table_mapping_keys in Hk; exfalso; revert Hk; by_compute. }
    destruct (any_variant debit_variants columns) eqn:Hd;
      [destruct (any_variant credit_variants columns) eqn:Hc |]; cbn [andb].
    + apply any_variant_first in Hd as [d Hd]. apply any_variant_first in Hc as [c Hc].
      split; intros _.
      * apply (list_elem_of_fmap_2 fst _ ("Credit", c)).
        apply (table_mapping_intro _ _ _ credit_variants); [| done]. by_compute.
      * apply (list_elem_of_fmap_2 fst _ ("Debit", d)).
        apply (table_mapping_intro _ _ _ debit_variants); [| done]. by_compute.
    + split; intros Hk; apply table_mapping_keys in Hk; exfalso; revert Hk; by_compute.
    + split; intros Hk; apply table_mapping_keys in Hk; exfalso; revert Hk; by_compute.
  - intros Ha Hc. split.
    + rewrite bank_column_mapping_table. fold columns.
      rewrite (any_variant_elem_of bank_amount_variants columns "Amount") by (done || by_compute).
      apply (table_mapping_intro _ _ _ bank_amount_variants); [by_compute |].
      by apply first_variant_head.
    + rewrite credit_column_mapping_table. fold columns.
      apply (table_mapping_intro _ _ _ credit_amount_variants); [by_compute |].
      by apply first_variant_head.
Qed.

Lemma column_mapping_takes_first_variant_witness :
  ("Amount", "Amount") ∈ bank_column_mapping ["Date"; " CAD$ "; "Amount"; "Memo"] /\
  ("Amount", "CAD$") ∈ credit_column_mapping ["Date"; " CAD$ "; "Amount"; "Memo"].
Proof.
  apply (proj2 (proj2 (proj2 (proj2 (proj2
           (column_mapping_takes_first_variant ["Date"; " CAD$ "; "Amount"; "Memo"])))))).
  - by_compute.
  - by_compute.
Defined.



(** ** Card holders *)

Section CardHolders.

Lemma slice_parts n s : s = Py.slice_to n s +:+ Py.slice_from n s.
Proof.
  revert s. induction n as [|n IH]; intros s; [done |].
  destruct s as [|c s]; [done |]. cbn [Py.slice_to Py.slice_from].
  by rewrite app_cons_str, <- IH.
Qed.

Lemma slice_from_app pre s : Py.slice_from (String.length pre) (pre +:+ s) = s.
Proof. induction pre as [|c pre IH]; [done |]. by rewrite app_cons_str. Qed.

Lemma last_four_app pre s : 4 <= String.length s -> last_four (pre +:+ s) = last_four s.
Proof.
  intros Hlen. unfold last_four. rewrite length_app_str.
  replace (String.length pre + String.length s - 4)
    with (String.length pre + (String.length s - 4)) by lia.
  generalize (String.length s - 4) as n. intros n.
  induction pre as [|c pre IH]; [done |]. by rewrite app_cons_str.
Qed.

(** The last four characters are a given four exactly when the string
    ends with them. *)
Lemma last_four_endswith s four :
  String.length four = 4 -> last_four s = four <-> Py.endswith s four = true.
Proof.
  intros Hfour. rewrite endswith_spec. split.
  - intros <-. eexists. apply slice_parts.
  - intros [pre ->]. rewrite last_four_app by lia.
    unfold last_four. by rewrite Hfour.
Qed.

Lemma account_of_card_cases card :
  (last_four card = "1522" /\ account_of_card card = "Paul") \/
  (last_four card = "7256" /\ account_of_card card = "Sarah") \/
  (last_four card <> "1522" /\ last_four card <> "7256" /\
   account_of_card card = "UnknownCard").
Proof.
  unfold account_of_card, card_mapping.
  destruct (decide (last_four card = "1522")) as [-> | H1]; [by left |].
  destruct (decide (last_four card = "7256")) as [-> | H2]; [by right; left |].
  right. right. split; [done |]. split; [done |].
  by rewrite lookup_insert_ne, lookup_singleton_ne.
Qed.

End CardHolders.

(** X22.  The holder of a credit card row.  The account is "Paul" exactly
    when the card number, as a string, ends with 1522, "Sarah" exactly
    when it ends with 7256, and "UnknownCard" otherwise; it depends on the
    last four characters only. *)
Theorem card_holder_by_last_four (card : string) :
  (account_of_card card = "Paul" <-> Py.endswith card "1522" = true) /\
  (account_of_card card = "Sarah" <-> Py.endswith card "7256" = true) /\
  (account_of_card card = "UnknownCard" <->
   Py.endswith card "1522" = false /\ Py.endswith card "7256" = false) /\
  (forall pre, 4 <= String.length card ->
     account_of_card (pre +:+ card) = account_of_card card).
Proof.
  pose proof (last_four_endswith card "1522" eq_refl) as HP.
  pose proof (last_four_endswith card "7256" eq_refl) as HS.
  split; [| split; [| split]].
  - destruct (account_of_card_cases card) as [[H ->] | [[H ->] | (H1 & H2 & ->)]].
    + split; [intros _; by apply HP | done].
    + split; [done |]. intros HE. apply HP in HE. congruence.
    + split; [done |]. intros HE. by apply HP in HE.
  - destruct (account_of_card_cases card) as [[H ->] | [[H ->] | (H1 & H2 & ->)]].
    + split; [done |]. intros HE. apply HS in HE. congruence.
    + split; [intros _; by apply HS | done].
    + split; [done |]. intros HE. by apply HS in HE.
  - destruct (account_of_card_cases card) as [[H ->] | [[H ->] | (H1 & H2 & ->)]].
    + split; [done |]. intros [HE _]. apply HP in H. congruence.
    + split; [done |]. intros [_ HE]. apply HS in H. congruence.
    + split; [intros _ | done]. split.
      * apply not_true_is_false. intros E. by apply HP in E.
      * apply not_true_is_false. intros E. by apply HS in E.
  - intros pre Hlen. unfold account_of_card. by rewrite last_four_app.
Qed.

Lemma card_holder_by_last_four_witness :
  account_of_card ("4500 1234 " +:+ "5678 7256") = account_of_card "5678 7256".
Proof.
  apply (proj2 (proj2 (proj2 (card_holder_by_last_four "5678 7256")))). cbn. lia.
Defined.

(** * The ledger over a session *)

Module LedgerSession.
Import Ledger LedgerFacts.

Implicit Types (rows l master new batch : list Row) (r : Row).

Local Abbreviation keys l := (identity_key <$> l).
Local Abbreviation key_not_in l := (fun r => identity_key r ∉ identity_key <$> l).
Local Abbreviation on_date v := (fun r => Date r = v).

Lemma keys_NoDup_length l1 l2 :
  NoDup (keys l1) -> NoDup (keys l2) ->
  (forall k, k ∈ keys l1 <-> k ∈ keys l2) ->
  length l1 = length l2.
Proof.
  intros H1 H2 Hk.
  rewrite <- (length_fmap identity_key l1), <- (length_fmap identity_key l2).
  apply Permutation_length. by apply NoDup_Permutation.
Qed.

Lemma drop_duplicates_last_length l : length (drop_duplicates_last l) <= length l.
Proof.
  induction l as [|r l IH]; [done |]. rewrite drop_duplicates_last_cons.
  case_decide; cbn; lia.
Qed.

Lemma drop_duplicates_last_length_eq l :
  length (drop_duplicates_last l) = length l <-> NoDup (keys l).
Proof.
  split; [| intros H; by rewrite drop_duplicates_last_id].
  induction l as [|r l IH]; [constructor |]. rewrite drop_duplicates_last_cons.
  pose proof (drop_duplicates_last_length l). intros Hlen.
  case_decide as Hr; cbn [length] in Hlen; [lia |].
  rewrite fmap_cons. constructor; [done |]. apply IH. lia.
Qed.

Lemma keys_filter_NoDup (P : Row -> Prop) `{!forall r, Decision (P r)} l :
  NoDup (keys l) -> NoDup (keys (filter P l)).
Proof.
  induction l as [|r l IH]; [done |].
  rewrite fmap_cons, NoDup_cons. intros [Hr Hl].
  destruct (decide (P r)); [| by rewrite filter_cons_False; auto].
  rewrite filter_cons_True, fmap_cons by done. constructor; [| by auto].
  intros Hin. apply Hr. apply list_elem_of_fmap in Hin as (x & -> & Hx).
  apply list_elem_of_filter in Hx as [_ Hx]. by apply list_elem_of_fmap_2.
Qed.

(** Over a ledger with distinct keys, the rows after the merge are as many
    as the ledger's and the distinct keys the batch brings. *)
Lemma merge_length_new_keys `{K : SortKind} master new :
  NoDup (keys master) ->
  length (merge master new)
  = length master + length (filter (key_not_in master) (drop_duplicates_last new)).
Proof.
  intros Hm. rewrite merge_perm, <- length_app.
  apply keys_NoDup_length.
  - apply drop_duplicates_last_NoDup.
  - rewrite fmap_app. apply NoDup_app. split; [done |]. split.
    + intros k Hk Hk'. apply list_elem_of_fmap in Hk' as (r & -> & Hr).
      by apply list_elem_of_filter in Hr as [Hr _].
    + apply keys_filter_NoDup, drop_duplicates_last_NoDup.
  - intros k. rewrite drop_duplicates_last_keys, !fmap_app, !elem_of_app.
    split.
    + intros [Hk | Hk]; [by left |].
      destruct (decide (k ∈ keys master)) as [? | Hnot]; [by left | right].
      apply drop_duplicates_last_keys in Hk. apply list_elem_of_fmap in Hk as (r & -> & Hr).
      apply list_elem_of_fmap_2. by apply list_elem_of_filter.
    + intros [Hk | Hk]; [by left | right].
      apply list_elem_of_fmap in Hk as (r & -> & Hr).
      apply list_elem_of_filter in Hr as [_ Hr].
      apply drop_duplicates_last_keys. by apply list_elem_of_fmap_2.
Qed.

(** A batch that brings no key the ledger does not have leaves as many rows
    as the ledger has distinct keys. *)
Lemma merge_length_known_keys `{K : SortKind} master new :
  (forall r, r ∈ new -> identity_key r ∈ keys master) ->
  length (merge master new) = length (drop_duplicates_last master).
Proof.
  intros Hknown. rewrite merge_perm. apply keys_NoDup_length.
  - apply drop_duplicates_last_NoDup.
  - apply drop_duplicates_last_NoDup.
  - intros k. rewrite !drop_duplicates_last_keys, fmap_app, elem_of_app.
    split; [| by left]. intros [? | Hk]; [done |].
    apply list_elem_of_fmap in Hk as (r & -> & Hr). by apply Hknown.
Qed.

Lemma filter_key_not_in_ext l1 l2 l :
  (forall k, k ∈ keys l1 <-> k ∈ keys l2) ->
  filter (key_not_in l1) l = filter (key_not_in l2) l.
Proof. intros Hk. apply list_filter_iff. intros r. by rewrite Hk. Qed.

Section Relabel.
Context `{K : SortKind}.

(** Merging a batch over a ledger that already took a batch of the same
    keys. *)
Lemma remerge_same_keys master old new :
  (forall k, k ∈ keys old <-> k ∈ keys new) ->
  drop_duplicates_last (merge master old ++ new)
  = filter (key_not_in new) (merge master old) ++ drop_duplicates_last new.
Proof.
  intros _.
  by rewrite drop_duplicates_last_app, (drop_duplicates_last_id (merge _ _))
    by apply merge_NoDup.
Qed.

Lemma filter_not_in_old master old new :
  (forall k, k ∈ keys old <-> k ∈ keys new) ->
  filter (key_not_in new) (drop_duplicates_last (master ++ old))
  = filter (key_not_in new) (drop_duplicates_last master).
Proof.
  intros Hk. rewrite <- !(filter_key_not_in_ext old new) by done.
  apply filter_not_in_batch.
Qed.

Lemma merge_same_keys_perm master old new :
  (forall k, k ∈ keys old <-> k ∈ keys new) ->
  merge (merge master old) new ≡ₚ merge master new.
Proof.
  intros Hk. rewrite (merge_perm (merge master old) new), (merge_perm master new).
  rewrite remerge_same_keys by done.
  rewrite merge_perm, filter_not_in_old by done.
  by rewrite drop_duplicates_last_app.
Qed.

Lemma merge_same_keys_stable master old new :
  Stable K ->
  (forall k, k ∈ keys old <-> k ∈ keys new) ->
  merge (merge master old) new = merge master new.
Proof.
  intros HK Hk. apply ascending_unique; try apply sort_values_Date_ascending.
  intros v. unfold merge at 1 3. rewrite !sort_values_Date_stable by done.
  rewrite remerge_same_keys, filter_app, filter_comm_rows by done.
  unfold merge at 1. rewrite sort_values_Date_stable by done.
  rewrite <- filter_comm_rows, filter_not_in_old by done.
  by rewrite drop_duplicates_last_app, filter_app.
Qed.

End Relabel.

Lemma apply_categories_keys rules batch :
  keys (apply_categories rules batch) = keys batch.
Proof.
  unfold apply_categories. rewrite <- list_fmap_compose. by apply list_fmap_ext.
Qed.

Lemma apply_categories_elem_of rules batch r :
  r ∈ apply_categories rules batch ->
  Ledger.Category r = categorize_transaction (Description r) rules.
Proof. intros Hr. by apply list_elem_of_fmap in Hr as (row & -> & _). Qed.


(** X23.  The number printed as "Added ... new transactions".  Over a
    ledger whose identity keys are distinct it is the number of distinct
    keys of the batch that the ledger does not have.  It is never more than
    the number of rows of the batch.  When the batch brings no key the
    ledger does not have, it is zero or less, and less than zero exactly
    when the ledger holds two rows of one key. *)
Theorem added_count_counts_new_keys (K : SortKind) (master new : list Row) :
  (NoDup (identity_key <$> master) ->
   added_count master new
   = Z.of_nat (length (filter (fun r => identity_key r ∉ identity_key <$> master)
                         (drop_duplicates_last new)))) /\
  (added_count master new <= Z.of_nat (length new))%Z /\
  ((forall r, r ∈ new -> identity_key r ∈ identity_key <$> master) ->
   (added_count master new <= 0)%Z /\
   ((added_count master new < 0)%Z <-> ~ NoDup (identity_key <$> master))).
Proof.
  unfold added_count. split; [| split].
  - intros Hm. rewrite merge_length_new_keys by done. lia.
  - rewrite merge_perm.
    pose proof (drop_duplicates_last_length (master ++ new)) as Hlen.
    rewrite length_app in Hlen. lia.
  - intros Hknown. rewrite merge_length_known_keys by done.
    pose proof (drop_duplicates_last_length master) as Hlen.
    pose proof (drop_duplicates_last_length_eq master) as Heq.
    split; [lia |]. split.
    + intros Hlt Hnd. apply Heq in Hnd. lia.
    + intros Hnd.
      destruct (decide (length (drop_duplicates_last master) = length master)) as [He | Hne];
        [by apply Heq in He | lia].
Qed.

Lemma added_count_counts_new_keys_witness :
  added_count (K := stable_kind)
    [ bank_row 5 "COSTCO" (-4500) "Groceries"; bank_row 9 "IKEA" (-9900) "Shopping" ]
    [ bank_row 5 "COSTCO" (-4500) "Shopping";
      bank_row 7 "NETFLIX.COM" (-1699) "Subscriptions";
      bank_row 7 "NETFLIX.COM" (-1699) "Entertainment" ]
  = 1%Z.
Proof.
  rewrite (proj1 (added_count_counts_new_keys stable_kind _ _)); [reflexivity |].
  by_compute.
Defined.

(** X24.  Labels of a batch that is imported again.  Applying the rules
    to a batch changes no identity key.  So when the batch was merged with
    the labels of one rule set and is merged again with the labels of
    another, the ledger has the rows that merging it with the second labels
    alone gives -- in the same order when the sort is stable -- and every
    row of a key of the batch carries the category the second rule set
    gives to its description: no label of the first import is left. *)
Theorem relabelled_batch_replaces_labels
    (K : SortKind) (master batch : list Row) (rules rules' : list Rule) :
  let old := apply_categories rules batch in
  let new := apply_categories rules' batch in
  identity_key <$> new = identity_key <$> batch /\
  merge (merge master old) new ≡ₚ merge master new /\
  (Stable K -> merge (merge master old) new = merge master new) /\
  (forall r, r ∈ merge (merge master old) new ->
     identity_key r ∈ identity_key <$> batch ->
     Ledger.Category r = categorize_transaction (Description r) rules').
Proof.
  intros old new.
  assert (forall k, k ∈ keys old <-> k ∈ keys new) as Hk.
  { intros k. unfold old, new. by rewrite !apply_categories_keys. }
  split; [apply apply_categories_keys |].
  split; [by apply merge_same_keys_perm |].
  split; [intros HK; by apply merge_same_keys_stable |].
  intros r Hr Hkey.
  rewrite merge_perm, remerge_same_keys in Hr by done.
  apply elem_of_app in Hr as [Hr | Hr].
  - apply list_elem_of_filter in Hr as [Hnot _]. destruct Hnot.
    unfold new. by rewrite apply_categories_keys.
  - apply drop_duplicates_last_subseteq in Hr. by apply apply_categories_elem_of in Hr.
Qed.

Lemma relabelled_batch_replaces_labels_witness :
  merge (K := stable_kind)
    (merge (K := stable_kind) [ bank_row 5 "COSTCO" (-4500) "Groceries" ]
       (apply_categories starter_rules
          [ bank_row 5 "NETFLIX.COM" (-1699) ""; bank_row 5 "UBER TRIP" (-1250) "" ]))
    (apply_categories (starter_rules ++ [netflix_rule "Subscriptions"])
       [ bank_row 5 "NETFLIX.COM" (-1699) ""; bank_row 5 "UBER TRIP" (-1250) "" ])
  = merge (K := stable_kind) [ bank_row 5 "COSTCO" (-4500) "Groceries" ]
      (apply_categories (starter_rules ++ [netflix_rule "Subscriptions"])
         [ bank_row 5 "NETFLIX.COM" (-1699) ""; bank_row 5 "UBER TRIP" (-1250) "" ]).
Proof.
  apply (proj1 (proj2 (proj2 (relabelled_batch_replaces_labels stable_kind _ _ _ _)))).
  apply stable_kind_Stable.
Defined.

End LedgerSession.
